(** * shuldan/migrator: a shallow embedding of the migration engine

    The development follows the two Go files of the package:
    - the [Migration] value and its fluent [MigrationBuilder];
    - the [Migrator] engine ([Up], [Down], [Status]) running against a
      transactional store.

    Go strings are byte strings and are modelled by [string]; Go [int] is
    modelled by [Z] with the 64-bit wrap-around written out where the code
    does arithmetic; Go maps keyed by strings are [gmap string _]. *)

From Stdlib Require Import ZArith String Ascii List Lia Bool.
From Stdlib Require Import Sorting.Sorted Sorting.Permutation.
From Stdlib Require Import Structures.OrderedTypeEx.
From stdpp Require Import gmap strings list.

Local Open Scope Z_scope.

(** ** The parts of Go's [strings], [fmt] and [sort] packages the code calls *)

Module GoStrings.

(** [asciiSpace] of package [strings]: tab, line feed, vertical tab, form
    feed, carriage return and space.  Strings are taken to be ASCII, which
    is the path [strings.TrimSpace] and [strings.Fields] take below
    [utf8.RuneSelf]. *)
Definition asciiSpace (c : ascii) : bool :=
  match N_of_ascii c with
  | 9%N | 10%N | 11%N | 12%N | 13%N | 32%N => true
  | _ => false
  end.

(** First loop of [TrimSpace]: skip spaces at the front. *)
Fixpoint trimLeft (s : string) : string :=
  match s with
  | EmptyString => EmptyString
  | String c s' => if asciiSpace c then trimLeft s' else s
  end.

(** Second loop of [TrimSpace]: drop spaces at the end. *)
Fixpoint trimRight (s : string) : string :=
  match s with
  | EmptyString => EmptyString
  | String c s' =>
      match trimRight s' with
      | EmptyString => if asciiSpace c then EmptyString else String c EmptyString
      | r => String c r
      end
  end.

Definition TrimSpace (s : string) : string := trimRight (trimLeft s).

Definition HasPrefix (s p : string) : bool := String.prefix p s.

(** [strings.Fields]: the maximal runs of non-space characters.  [cur] is
    the field being read, [None] between fields. *)
Fixpoint fieldsFrom (cur : option string) (s : string) : list string :=
  match s with
  | EmptyString => match cur with Some f => [f] | None => [] end
  | String c s' =>
      if asciiSpace c then
        match cur with
        | Some f => f :: fieldsFrom None s'
        | None => fieldsFrom None s'
        end
      else
        fieldsFrom (Some (match cur with
                          | Some f => f +:+ String c EmptyString
                          | None => String c EmptyString
                          end)) s'
  end.

Definition Fields (s : string) : list string := fieldsFrom None s.

(** [strings.Join]. *)
Fixpoint Join (elems : list string) (sep : string) : string :=
  match elems with
  | [] => EmptyString
  | [e] => e
  | e :: rest => e +:+ sep +:+ Join rest sep
  end.

(** Go's [<] on strings is the lexicographic order on bytes. *)
Definition less (a b : string) : bool := String.ltb a b.

(** Every character of the string is a space (the empty string too). *)
Fixpoint allSpace (s : string) : bool :=
  match s with
  | EmptyString => true
  | String c s' => asciiSpace c && allSpace s'
  end.

Definition whitespaceOnly (s : string) : Prop := allSpace s = true.



End GoStrings.

(** ** migration.go: the Migration value and its builder *)

(** The [Migration] interface: any value with the four accessors.  The engine
    only reads them, so a migration is the record of what they return. *)
Module Migration.
Record t := Make {
  ID : string;
  Description : string;
  Up : list string;
  Down : list string
}.
End Migration.

Module MigrationStatus.
(** [AppliedAt] is the store's insertion time. *)
Record t := Make {
  ID : string;
  Description : string;
  AppliedAt : option Z;
  Batch : Z
}.
End MigrationStatus.

Module Builder.
Import GoStrings.

Record baseMigration := {
  id : string;
  description : string;
  upQueries : list string;
  downQueries : list string
}.

(** The methods mutate the receiver and return it; here they return the
    receiver's new value. *)
Definition AddUp (query : string) (m : baseMigration) : baseMigration :=
  {| id := id m; description := description m;
     upQueries := upQueries m ++ [query];
     downQueries := downQueries m |}.

Definition AddDown (query : string) (m : baseMigration) : baseMigration :=
  {| id := id m; description := description m;
     upQueries := upQueries m;
     downQueries := [query] ++ downQueries m |}.

(** A builder holds a pointer to its migration. *)
Record MigrationBuilder := { migration : baseMigration }.

(** A call either returns, or panics leaving the receiver as it was at the
    panic. *)
Inductive outcome :=
| Returned (b : MigrationBuilder)
| Panicked (b : MigrationBuilder).

Definition CreateMigration (id description : string) : MigrationBuilder :=
  {| migration := {| id := id; description := description;
                     upQueries := []; downQueries := [] |} |}.

Definition withUp (q : string) (b : MigrationBuilder) : MigrationBuilder :=
  {| migration := AddUp q (migration b) |}.
Definition withDown (q : string) (b : MigrationBuilder) : MigrationBuilder :=
  {| migration := AddDown q (migration b) |}.

Definition CreateTable (tableName : string) (columns : list string)
    (b : MigrationBuilder) : MigrationBuilder :=
  let query := "CREATE TABLE IF NOT EXISTS " +:+ tableName +:+ " (
    " +:+ Join columns ",
    " +:+ "
);" in
  withDown ("DROP TABLE IF EXISTS " +:+ tableName +:+ ";") (withUp query b).

Definition DropTable (tableName : string) (b : MigrationBuilder) : MigrationBuilder :=
  withDown ("-- Cannot restore dropped table " +:+ tableName)
    (withUp ("DROP TABLE IF EXISTS " +:+ tableName +:+ ";") b).

(** [strings.Fields(columnDef)[0]] is an index into a slice: out of range
    when the definition has no field. *)
Definition AddColumn (tableName columnDef : string) (b : MigrationBuilder) : outcome :=
  let b1 := withUp ("ALTER TABLE " +:+ tableName +:+ " ADD COLUMN " +:+ columnDef +:+ ";") b in
  match Fields columnDef with
  | [] => Panicked b1
  | columnName :: _ =>
      Returned (withDown ("ALTER TABLE " +:+ tableName +:+ " DROP COLUMN " +:+ columnName +:+ ";") b1)
  end.

Definition DropColumn (tableName columnName : string) (b : MigrationBuilder) : MigrationBuilder :=
  withDown ("-- Cannot restore dropped column " +:+ tableName +:+ "." +:+ columnName
              +:+ " without definition")
    (withUp ("ALTER TABLE " +:+ tableName +:+ " DROP COLUMN " +:+ columnName +:+ ";") b).

Definition RenameColumn (tableName oldName newName : string) (b : MigrationBuilder)
    : MigrationBuilder :=
  withDown ("ALTER TABLE " +:+ tableName +:+ " RENAME COLUMN " +:+ newName +:+ " TO "
              +:+ oldName +:+ ";")
    (withUp ("ALTER TABLE " +:+ tableName +:+ " RENAME COLUMN " +:+ oldName +:+ " TO "
               +:+ newName +:+ ";") b).

Definition ChangeColumn (tableName columnName newDefinition : string)
    (b : MigrationBuilder) : MigrationBuilder :=
  withDown ("-- Cannot reverse column change for " +:+ tableName +:+ "." +:+ columnName)
    (withUp ("ALTER TABLE " +:+ tableName +:+ " ALTER COLUMN " +:+ columnName +:+ " "
               +:+ newDefinition +:+ ";") b).

Definition CreateIndex (indexName tableName : string) (columns : list string)
    (b : MigrationBuilder) : MigrationBuilder :=
  let query := "CREATE INDEX " +:+ indexName +:+ " ON " +:+ tableName +:+ " ("
                 +:+ Join columns ", " +:+ ");" in
  withDown ("DROP INDEX IF EXISTS " +:+ indexName +:+ ";") (withUp query b).

Definition CreateUniqueIndex (indexName tableName : string) (columns : list string)
    (b : MigrationBuilder) : MigrationBuilder :=
  let query := "CREATE UNIQUE INDEX " +:+ indexName +:+ " ON " +:+ tableName +:+ " ("
                 +:+ Join columns ", " +:+ ");" in
  withDown ("DROP INDEX IF EXISTS " +:+ indexName +:+ ";") (withUp query b).

Definition DropIndex (indexName : string) (b : MigrationBuilder) : MigrationBuilder :=
  withDown ("-- Cannot restore dropped index " +:+ indexName +:+ " without definition")
    (withUp ("DROP INDEX IF EXISTS " +:+ indexName +:+ ";") b).

Definition AddForeignKeyWithName (tableName constraintName columnName refTable refColumn : string)
    (b : MigrationBuilder) : MigrationBuilder :=
  let query := "ALTER TABLE " +:+ tableName +:+ " ADD CONSTRAINT " +:+ constraintName
                 +:+ " FOREIGN KEY (" +:+ columnName +:+ ") REFERENCES " +:+ refTable
                 +:+ "(" +:+ refColumn +:+ ");" in
  withDown ("ALTER TABLE " +:+ tableName +:+ " DROP CONSTRAINT IF EXISTS "
              +:+ constraintName +:+ ";") (withUp query b).

Definition AddForeignKey (tableName columnName refTable refColumn : string)
    (b : MigrationBuilder) : MigrationBuilder :=
  let constraintName := "fk_" +:+ tableName +:+ "_" +:+ columnName in
  let query := "ALTER TABLE " +:+ tableName +:+ " ADD CONSTRAINT " +:+ constraintName
                 +:+ " FOREIGN KEY (" +:+ columnName +:+ ") REFERENCES " +:+ refTable
                 +:+ "(" +:+ refColumn +:+ ");" in
  withDown ("ALTER TABLE " +:+ tableName +:+ " DROP CONSTRAINT IF EXISTS "
              +:+ constraintName +:+ ";") (withUp query b).

Definition DropForeignKey (tableName constraintName : string) (b : MigrationBuilder)
    : MigrationBuilder :=
  withDown ("-- Cannot restore dropped foreign key " +:+ constraintName)
    (withUp ("ALTER TABLE " +:+ tableName +:+ " DROP CONSTRAINT IF EXISTS "
               +:+ constraintName +:+ ";") b).

Definition AddPrimaryKey (tableName constraintName : string) (columns : list string)
    (b : MigrationBuilder) : MigrationBuilder :=
  let query := "ALTER TABLE " +:+ tableName +:+ " ADD CONSTRAINT " +:+ constraintName
                 +:+ " PRIMARY KEY (" +:+ Join columns ", " +:+ ");" in
  withDown ("ALTER TABLE " +:+ tableName +:+ " DROP CONSTRAINT IF EXISTS "
              +:+ constraintName +:+ ";") (withUp query b).

Definition AddCheck (tableName constraintName condition : string) (b : MigrationBuilder)
    : MigrationBuilder :=
  let query := "ALTER TABLE " +:+ tableName +:+ " ADD CONSTRAINT " +:+ constraintName
                 +:+ " CHECK (" +:+ condition +:+ ");" in
  withDown ("ALTER TABLE " +:+ tableName +:+ " DROP CONSTRAINT IF EXISTS "
              +:+ constraintName +:+ ";") (withUp query b).

Definition RawUp (query : string) (b : MigrationBuilder) : MigrationBuilder :=
  withUp query b.

Definition RawDown (query : string) (b : MigrationBuilder) : MigrationBuilder :=
  withDown query b.

Definition Raw (upQuery downQuery : string) (b : MigrationBuilder) : MigrationBuilder :=
  withDown downQuery (withUp upQuery b).

Definition Build (b : MigrationBuilder) : Migration.t :=
  Migration.Make (id (migration b)) (description (migration b))
                 (upQueries (migration b)) (downQueries (migration b)).

(** The builder's surface, one constructor per method, so that a property
    can be stated for every call. *)
Inductive call :=
| CallCreateTable (tableName : string) (columns : list string)
| CallDropTable (tableName : string)
| CallAddColumn (tableName columnDef : string)
| CallDropColumn (tableName columnName : string)
| CallRenameColumn (tableName oldName newName : string)
| CallChangeColumn (tableName columnName newDefinition : string)
| CallCreateIndex (indexName tableName : string) (columns : list string)
| CallCreateUniqueIndex (indexName tableName : string) (columns : list string)
| CallDropIndex (indexName : string)
| CallAddForeignKey (tableName columnName refTable refColumn : string)
| CallAddForeignKeyWithName (tableName constraintName columnName refTable refColumn : string)
| CallDropForeignKey (tableName constraintName : string)
| CallAddPrimaryKey (tableName constraintName : string) (columns : list string)
| CallAddCheck (tableName constraintName condition : string)
| CallRawUp (query : string)
| CallRawDown (query : string)
| CallRaw (upQuery downQuery : string).

Definition perform (c : call) (b : MigrationBuilder) : outcome :=
  match c with
  | CallCreateTable t cs => Returned (CreateTable t cs b)
  | CallDropTable t => Returned (DropTable t b)
  | CallAddColumn t d => AddColumn t d b
  | CallDropColumn t c => Returned (DropColumn t c b)
  | CallRenameColumn t o n => Returned (RenameColumn t o n b)
  | CallChangeColumn t c d => Returned (ChangeColumn t c d b)
  | CallCreateIndex i t cs => Returned (CreateIndex i t cs b)
  | CallCreateUniqueIndex i t cs => Returned (CreateUniqueIndex i t cs b)
  | CallDropIndex i => Returned (DropIndex i b)
  | CallAddForeignKey t c rt rc => Returned (AddForeignKey t c rt rc b)
  | CallAddForeignKeyWithName t n c rt rc => Returned (AddForeignKeyWithName t n c rt rc b)
  | CallDropForeignKey t n => Returned (DropForeignKey t n b)
  | CallAddPrimaryKey t n cs => Returned (AddPrimaryKey t n cs b)
  | CallAddCheck t n c => Returned (AddCheck t n c b)
  | CallRawUp q => Returned (RawUp q b)
  | CallRawDown q => Returned (RawDown q b)
  | CallRaw u d => Returned (Raw u d b)
  end.

(** The two one-sided escape hatches. *)
Definition oneSided (c : call) : bool :=
  match c with
  | CallRawUp _ | CallRawDown _ => true
  | _ => false
  end.

(** A fluent chain [b.A(...).B(...)]: the calls in order, stopping at the
    first panic. *)
Fixpoint performAll (cs : list call) (b : MigrationBuilder) : outcome :=
  match cs with
  | [] => Returned b
  | c :: rest =>
      match perform c b with
      | Returned b' => performAll rest b'
      | Panicked b' => Panicked b'
      end
  end.

(** The statements a call leaves in a builder that held none. *)
Definition forwardOf (c : call) : list string :=
  match perform c (CreateMigration "" "") with
  | Returned b' | Panicked b' => upQueries (migration b')
  end.
Definition reverseOf (c : call) : list string :=
  match perform c (CreateMigration "" "") with
  | Returned b' | Panicked b' => downQueries (migration b')
  end.

(** The calls whose reverse statement is a comment placeholder, and the
    calls that take their statements from the caller. *)
Definition irreversible (c : call) : bool :=
  match c with
  | CallDropTable _ | CallDropColumn _ _ | CallChangeColumn _ _ _
  | CallDropIndex _ | CallDropForeignKey _ _ => true
  | _ => false
  end.
Definition raw (c : call) : bool :=
  match c with
  | CallRawUp _ | CallRawDown _ | CallRaw _ _ => true
  | _ => false
  end.

End Builder.

(** ** Go's [int] and [sort.Slice] *)

Module GoInt.
(** [int] is 64 bits wide; arithmetic wraps around. *)
Definition maxInt : Z := 2 ^ 63 - 1.
Definition wrap (z : Z) : Z := (z + 2 ^ 63) mod 2 ^ 64 - 2 ^ 63.
Definition add (a b : Z) : Z := wrap (a + b).
(** [len] of a slice, as an [int]. *)
Definition len {A} (l : list A) : Z := Z.of_nat (length l).
End GoInt.

Module GoSort.
(** [sort.Slice] sorts in place with the caller's [less].  On slices of at
    most twelve elements Go runs an insertion sort, which is the algorithm
    taken here: each element in turn moves left past the elements it is
    less than. *)
Fixpoint insert {A} (less : A -> A -> bool) (x : A) (sorted : list A) : list A :=
  match sorted with
  | [] => [x]
  | y :: rest => if less x y then x :: y :: rest else y :: insert less x rest
  end.

Definition Slice {A} (less : A -> A -> bool) (l : list A) : list A :=
  fold_left (fun sorted x => insert less x sorted) l [].
End GoSort.

(** ** errors.go *)

Inductive error :=
| ErrMigrationFailed
| ErrFailedToCreateSchemaMigrationsTable
| ErrFailedToCreateSchemaMigrationsIndex
| ErrFailedToGetAppliedMigrations
| ErrFailedToBeginTransaction
| ErrNoMigrationsToRollback
| ErrFailedToExecuteQuery
| ErrDriver                      (* an error reported by the store *)
| ErrJoin (a b : error).         (* errors.Join *)

(** ** migrator.go *)

Module Migrator.
Import GoStrings.

Definition migrationTableSQL : string := "
CREATE TABLE IF NOT EXISTS schema_migrations (
    id VARCHAR(255) PRIMARY KEY,
    description TEXT NOT NULL,
    applied_at TIMESTAMP NOT NULL DEFAULT CURRENT_TIMESTAMP,
    batch INTEGER NOT NULL
);
".

Definition migrationTableIndexSQL : string := "
CREATE INDEX IF NOT EXISTS idx_schema_migrations_batch ON schema_migrations(batch);
".

Definition selectAppliedSQL : string :=
  "SELECT id, description, applied_at, batch FROM schema_migrations ORDER BY batch, id".

(** The calls the engine makes on the store, in order. *)
Inductive event :=
| EvExecDB (query : string)                   (* db.Exec, outside a transaction *)
| EvQuery (query : string)                    (* db.QueryContext *)
| EvBegin                                     (* db.BeginTx *)
| EvExec (query : string)                     (* tx.ExecContext of a migration statement *)
| EvInsert (id description : string) (batch : Z)   (* tx.ExecContext of the Ledger INSERT *)
| EvDelete (id : string)                      (* tx.ExecContext of the Ledger DELETE *)
| EvCommit                                    (* tx.Commit *)
| EvRollback.                                 (* tx.Rollback *)

(** The engine's state: the registered candidates.  The mutex makes every
    public call run alone, so a call is one function on the state. *)
Record t := { migrations : list Migration.t }.

Definition New : t := {| migrations := [] |}.

Definition Register (migration : list Migration.t) (m : t) : t :=
  {| migrations := migrations m ++ migration |}.

(** What the store may refuse during one call, and its clock. *)
Record Faults := {
  tableFails : bool;
  indexFails : bool;
  queryFails : bool;
  beginFails : bool;
  insertFails : string -> bool;
  deleteFails : string -> bool;
  commitFails : bool;
  now : Z
}.

Section Store.

(** The store holds the user's schema and data, of a type [U] left open,
    and the Ledger table.  [execStmt] is what a migration statement does
    to the user's part inside a transaction; [None] is an error. *)
Variable U : Type.
Variable execStmt : string -> U -> option U.

Record DB := { data : U; ledger : list MigrationStatus.t }.

(** An open transaction: its working copy and the calls made so far. *)
Record Tx := { work : DB; calls : list event }.

(** What a public call leaves behind. *)
Record Result := {
  err : option error;
  self : t;
  store : DB;
  trace : list event
}.

Definition logged (ev : event) (tx : Tx) : Tx :=
  {| work := work tx; calls := calls tx ++ [ev] |}.

Definition createMigrationTable (env : Faults) : option error * list event :=
  if tableFails env then
    (Some (ErrJoin ErrFailedToCreateSchemaMigrationsTable ErrDriver),
     [EvExecDB migrationTableSQL])
  else if indexFails env then
    (Some (ErrJoin ErrFailedToCreateSchemaMigrationsIndex ErrDriver),
     [EvExecDB migrationTableSQL; EvExecDB migrationTableIndexSQL])
  else (None, [EvExecDB migrationTableSQL; EvExecDB migrationTableIndexSQL]).

(** ORDER BY batch, id. *)
Definition byBatchID (a b : MigrationStatus.t) : bool :=
  (MigrationStatus.Batch a <? MigrationStatus.Batch b)
  || ((MigrationStatus.Batch a =? MigrationStatus.Batch b)
      && less (MigrationStatus.ID a) (MigrationStatus.ID b)).

Definition getAppliedMigrations (env : Faults) (db : DB)
    : (error + list MigrationStatus.t) * list event :=
  match createMigrationTable env with
  | (Some e, evs) => (inl e, evs)
  | (None, evs) =>
      if queryFails env then (inl ErrDriver, evs ++ [EvQuery selectAppliedSQL])
      else (inr (GoSort.Slice byBatchID (ledger db)), evs ++ [EvQuery selectAppliedSQL])
  end.

Definition getNextBatchNumber (applied : list MigrationStatus.t) : Z :=
  let maxBatch :=
    fold_left (fun maxBatch migration =>
                 if MigrationStatus.Batch migration >? maxBatch
                 then MigrationStatus.Batch migration else maxBatch)
              applied 0 in
  GoInt.add maxBatch 1.

(** [tx.ExecContext] of a migration statement. *)
Definition ExecContext (query : string) (tx : Tx) : option error * Tx :=
  match execStmt query (data (work tx)) with
  | Some u => (None, {| work := {| data := u; ledger := ledger (work tx) |};
                        calls := calls tx ++ [EvExec query] |})
  | None => (Some ErrDriver, logged (EvExec query) tx)
  end.

Definition hasID (id : string) (rows : list MigrationStatus.t) : bool :=
  existsb (fun row => String.eqb (MigrationStatus.ID row) id) rows.

(** The Ledger INSERT: refused by the primary key when the identifier is
    already there. *)
Definition insertMigrationRecord (env : Faults) (id description : string) (batch : Z)
    (tx : Tx) : option error * Tx :=
  if insertFails env id || hasID id (ledger (work tx)) then
    (Some ErrDriver, logged (EvInsert id description batch) tx)
  else
    (None, {| work := {| data := data (work tx);
                         ledger := ledger (work tx)
                                   ++ [MigrationStatus.Make id description (Some (now env)) batch] |};
              calls := calls tx ++ [EvInsert id description batch] |}).

Definition deleteMigrationRecord (env : Faults) (migrationID : string) (tx : Tx)
    : option error * Tx :=
  if deleteFails env migrationID then
    (Some ErrDriver, logged (EvDelete migrationID) tx)
  else
    (None, {| work := {| data := data (work tx);
                         ledger := List.filter
                                     (fun row => negb (String.eqb (MigrationStatus.ID row) migrationID))
                                     (ledger (work tx)) |};
              calls := calls tx ++ [EvDelete migrationID] |}).

(** Statements run one after the other on the user's part of the store,
    stopping at the first error: the statements attempted, the state
    reached, and whether all went through. *)
Fixpoint runStatements (queries : list string) (u : U) : list string * U * bool :=
  match queries with
  | [] => ([], u, true)
  | query :: rest =>
      match execStmt query u with
      | None => ([query], u, false)
      | Some u' =>
          let '(attempted, final, ok) := runStatements rest u' in
          (query :: attempted, final, ok)
      end
  end.

(** The entries forward execution runs, and those reverse execution runs. *)
Definition forwardKept (queries : list string) : list string :=
  List.filter (fun q => negb (allSpace q)) queries.
Definition reverseKept (queries : list string) : list string :=
  List.filter (fun q => negb (allSpace q || String.prefix "--" (trimLeft q))) queries.

(** The loop of [executeMigrationUp]. *)
Fixpoint execUpQueries (queries : list string) (tx : Tx) : option error * Tx :=
  match queries with
  | [] => (None, tx)
  | query :: rest =>
      if String.eqb (TrimSpace query) "" then execUpQueries rest tx
      else match ExecContext query tx with
           | (Some e, tx') => (Some (ErrJoin ErrFailedToExecuteQuery e), tx')
           | (None, tx') => execUpQueries rest tx'
           end
  end.

Definition executeMigrationUp (env : Faults) (tx : Tx) (migration : Migration.t) (batch : Z)
    : option error * Tx :=
  match execUpQueries (Migration.Up migration) tx with
  | (Some e, tx') => (Some e, tx')
  | (None, tx') =>
      insertMigrationRecord env (Migration.ID migration) (Migration.Description migration)
                            batch tx'
  end.

(** The loop of [executeMigrationBatch]. *)
Fixpoint execBatch (env : Faults) (migrations : list Migration.t) (batch : Z) (tx : Tx)
    : option error * Tx :=
  match migrations with
  | [] => (None, tx)
  | migration :: rest =>
      match executeMigrationUp env tx migration batch with
      | (Some e, tx') => (Some (ErrJoin ErrMigrationFailed e), tx')
      | (None, tx') => execBatch env rest batch tx'
      end
  end.

Definition BeginTx (env : Faults) (db : DB) : error + Tx :=
  if beginFails env then inl ErrDriver
  else inr {| work := db; calls := [EvBegin] |}.

(** One transaction for the whole batch.  The deferred function rolls
    back unless the commit went through; only a commit changes the store. *)
Definition executeMigrationBatch (env : Faults) (migrations : list Migration.t) (batch : Z)
    (db : DB) : option error * DB * list event :=
  match BeginTx env db with
  | inl e => (Some (ErrJoin ErrFailedToBeginTransaction e), db, [EvBegin])
  | inr tx =>
      match execBatch env migrations batch tx with
      | (Some e, tx') => (Some e, db, calls tx' ++ [EvRollback])
      | (None, tx') =>
          if commitFails env then (Some ErrDriver, db, calls tx' ++ [EvCommit; EvRollback])
          else (None, work tx', calls tx' ++ [EvCommit])
      end
  end.

Definition buildMigrationMap (migrations : list Migration.t) : gmap string Migration.t :=
  fold_left (fun migrationMap m => <[Migration.ID m := m]> migrationMap) migrations ∅.

(** The comparison of [buildRollbackList]. *)
Definition byBatchIDDesc (a b : MigrationStatus.t) : bool :=
  (MigrationStatus.Batch a >? MigrationStatus.Batch b)
  || ((MigrationStatus.Batch a =? MigrationStatus.Batch b)
      && less (MigrationStatus.ID b) (MigrationStatus.ID a)).

Definition buildRollbackList (applied : list MigrationStatus.t) (steps : Z)
    : list MigrationStatus.t :=
  let applied := GoSort.Slice byBatchIDDesc applied in
  let steps := if (steps <=? 0) || (steps >? GoInt.len applied)
               then GoInt.len applied else steps in
  firstn (Z.to_nat steps) applied.

(** The loop over [migration.Down()] in [rollbackSingleMigration]. *)
Fixpoint execDownQueries (queries : list string) (tx : Tx) : option error * Tx :=
  match queries with
  | [] => (None, tx)
  | query :: rest =>
      let trimmedQuery := TrimSpace query in
      if String.eqb trimmedQuery "" || HasPrefix trimmedQuery "--"
      then execDownQueries rest tx
      else match ExecContext query tx with
           | (Some e, tx') => (Some (ErrJoin ErrMigrationFailed e), tx')
           | (None, tx') => execDownQueries rest tx'
           end
  end.

Definition rollbackSingleMigration (env : Faults) (tx : Tx)
    (migrationStatus : MigrationStatus.t) (migrationMap : gmap string Migration.t)
    : option error * Tx :=
  let ran :=
    match migrationMap !! MigrationStatus.ID migrationStatus with
    | Some migration => execDownQueries (Migration.Down migration) tx
    | None => (None, tx)
    end in
  match ran with
  | (Some e, tx') => (Some e, tx')
  | (None, tx') =>
      match deleteMigrationRecord env (MigrationStatus.ID migrationStatus) tx' with
      | (Some e, tx'') => (Some (ErrJoin ErrMigrationFailed e), tx'')
      | (None, tx'') => (None, tx'')
      end
  end.

(** The loop of [executeRollback]. *)
Fixpoint execRollbackList (env : Faults) (rollbackList : list MigrationStatus.t)
    (migrationMap : gmap string Migration.t) (tx : Tx) : option error * Tx :=
  match rollbackList with
  | [] => (None, tx)
  | migrationStatus :: rest =>
      match rollbackSingleMigration env tx migrationStatus migrationMap with
      | (Some e, tx') => (Some e, tx')
      | (None, tx') => execRollbackList env rest migrationMap tx'
      end
  end.

Definition executeRollback (env : Faults) (rollbackList : list MigrationStatus.t)
    (migrationMap : gmap string Migration.t) (db : DB) : option error * DB * list event :=
  match BeginTx env db with
  | inl e => (Some (ErrJoin ErrFailedToBeginTransaction e), db, [EvBegin])
  | inr tx =>
      match execRollbackList env rollbackList migrationMap tx with
      | (Some e, tx') => (Some e, db, calls tx' ++ [EvRollback])
      | (None, tx') =>
          if commitFails env then (Some ErrDriver, db, calls tx' ++ [EvCommit; EvRollback])
          else (None, work tx', calls tx' ++ [EvCommit])
      end
  end.

(** [appliedMap] of [Up]. *)
Definition buildAppliedMap (applied : list MigrationStatus.t) : gmap string bool :=
  fold_left (fun appliedMap a => <[MigrationStatus.ID a := true]> appliedMap) applied ∅.

(** Reading a Go map at a missing key gives the zero value. *)
Definition isApplied (appliedMap : gmap string bool) (id : string) : bool :=
  default false (appliedMap !! id).

Definition byID (a b : Migration.t) : bool := less (Migration.ID a) (Migration.ID b).

(** Lines 57 to 68 of [Up]: the candidates sorted, then those not applied. *)
Definition newMigrations (appliedMap : gmap string bool) (sorted : list Migration.t)
    : list Migration.t :=
  List.filter (fun migration => negb (isApplied appliedMap (Migration.ID migration))) sorted.

(** [migrations := r.migrations] shares the engine's slice, so the sort
    reorders the registered candidates themselves. *)
Definition Up (env : Faults) (r : t) (db : DB) : Result :=
  match getAppliedMigrations env db with
  | (inl e, evs) =>
      {| err := Some (ErrJoin ErrFailedToGetAppliedMigrations e);
         self := r; store := db; trace := evs |}
  | (inr applied, evs) =>
      let appliedMap := buildAppliedMap applied in
      let sorted := GoSort.Slice byID (migrations r) in
      let r' := {| migrations := sorted |} in
      let new := newMigrations appliedMap sorted in
      if GoInt.len new =? 0 then
        {| err := None; self := r'; store := db; trace := evs |}
      else
        let nextBatch := getNextBatchNumber applied in
        let '(e, db', evs') := executeMigrationBatch env new nextBatch db in
        {| err := e; self := r'; store := db'; trace := evs ++ evs' |}
  end.

Definition Down (env : Faults) (steps : Z) (r : t) (db : DB) : Result :=
  match getAppliedMigrations env db with
  | (inl e, evs) =>
      {| err := Some (ErrJoin ErrFailedToGetAppliedMigrations e);
         self := r; store := db; trace := evs |}
  | (inr applied, evs) =>
      if GoInt.len applied =? 0 then
        {| err := Some ErrNoMigrationsToRollback; self := r; store := db; trace := evs |}
      else
        let migrationMap := buildMigrationMap (migrations r) in
        let rollbackList := buildRollbackList applied steps in
        let '(e, db', evs') := executeRollback env rollbackList migrationMap db in
        {| err := e; self := r; store := db'; trace := evs ++ evs' |}
  end.

Definition Status (env : Faults) (db : DB) : (error + list MigrationStatus.t) * list event :=
  getAppliedMigrations env db.

End Store.

Arguments data {U} _.
Arguments ledger {U} _.
Arguments work {U} _.
Arguments calls {U} _.
Arguments err {U} _.
Arguments self {U} _.
Arguments store {U} _.
Arguments trace {U} _.

End Migrator.

(** ** What a call's trace and the Ledger show *)

Module Observed.
Import GoStrings Migrator.

(** The identifiers of the Ledger DELETEs of a trace, in order. *)
Definition deletedIDs (evs : list event) : list string :=
  flat_map (fun ev => match ev with EvDelete id => [id] | _ => [] end) evs.

(** The identifiers and batch numbers of the Ledger INSERTs of a trace. *)
Definition insertedIDs (evs : list event) : list string :=
  flat_map (fun ev => match ev with EvInsert id _ _ => [id] | _ => [] end) evs.
Definition insertedBatches (evs : list event) : list Z :=
  flat_map (fun ev => match ev with EvInsert _ _ batch => [batch] | _ => [] end) evs.

(** The migration statements of a trace. *)
Definition executed (evs : list event) : list string :=
  flat_map (fun ev => match ev with EvExec q => [q] | _ => [] end) evs.

(** The calls that need a transaction. *)
Definition inTransaction (ev : event) : bool :=
  match ev with
  | EvExecDB _ | EvQuery _ => false
  | _ => true
  end.

(** [a] does not sort after [b]: the order of Go's [<=] on strings. *)
Definition idLe (a b : string) : Prop := less b a = false.

(** Ascending by identifier. *)
Definition ascByID (a b : Migration.t) : Prop := idLe (Migration.ID a) (Migration.ID b).


(** Ascending by batch, then ascending by identifier. *)
Definition ascByBatchID (a b : MigrationStatus.t) : Prop :=
  MigrationStatus.Batch a < MigrationStatus.Batch b
  \/ (MigrationStatus.Batch a = MigrationStatus.Batch b
      /\ idLe (MigrationStatus.ID a) (MigrationStatus.ID b)).

(** The Ledger row an apply writes for a migration. *)
Definition appliedRow (env : Faults) (batch : Z) (m : Migration.t) : MigrationStatus.t :=
  MigrationStatus.Make (Migration.ID m) (Migration.Description m) (Some (now env)) batch.

(** The calls applying one migration makes when nothing fails. *)
Definition applyEvents (batch : Z) (m : Migration.t) : list event :=
  map EvExec (forwardKept (Migration.Up m))
  ++ [EvInsert (Migration.ID m) (Migration.Description m) batch].

(** The reverse statements run for a Ledger row: none when its identifier
    is not registered. *)
Definition reverseStatements (migrationMap : gmap string Migration.t)
    (row : MigrationStatus.t) : list string :=
  match migrationMap !! MigrationStatus.ID row with
  | Some m => reverseKept (Migration.Down m)
  | None => []
  end.

(** The calls rolling back one row makes when nothing fails. *)
Definition rollbackEvents (migrationMap : gmap string Migration.t)
    (row : MigrationStatus.t) : list event :=
  map EvExec (reverseStatements migrationMap row) ++ [EvDelete (MigrationStatus.ID row)].

(** The Ledger without the rows of the given identifiers. *)
Definition withoutIDs (ids : list string) (rows : list MigrationStatus.t)
    : list MigrationStatus.t :=
  List.filter (fun row => negb (existsb (String.eqb (MigrationStatus.ID row)) ids)) rows.

(** The two calls of the Ledger bootstrap and the read that follows. *)
Definition readEvents : list event :=
  [EvExecDB migrationTableSQL; EvExecDB migrationTableIndexSQL; EvQuery selectAppliedSQL].

(** The store answers the bootstrap and the read of the Ledger. *)
Definition readable (env : Faults) : Prop :=
  tableFails env = false /\ indexFails env = false /\ queryFails env = false.

(** What [Up] reads before it opens a transaction: the Ledger rows as the
    read returns them, the candidates left to apply and their batch. *)
Definition appliedRows {U} (db : DB U) : list MigrationStatus.t :=
  GoSort.Slice byBatchID (ledger db).
Definition pending {U} (r : Migrator.t) (db : DB U) : list Migration.t :=
  newMigrations (buildAppliedMap (appliedRows db))
                (GoSort.Slice byID (migrations r)).
Definition nextBatch {U} (db : DB U) : Z := getNextBatchNumber (appliedRows db).

(** What [Down] selects. *)
Definition selected {U} (steps : Z) (db : DB U) : list MigrationStatus.t :=
  buildRollbackList (appliedRows db) steps.

(** The calls made on an open transaction between its begin and its end. *)
Definition isStatement (ev : event) : bool :=
  match ev with
  | EvExec _ | EvInsert _ _ _ | EvDelete _ => true
  | _ => false
  end.

(** The forward statements of a list of migrations, as [Up] runs them. *)
Definition forwardStatements (ms : list Migration.t) : list string :=
  flat_map (fun m => forwardKept (Migration.Up m)) ms.

End Observed.

(** ** A small store and two migrations to run the engine on *)

Module Example.
Import Migrator.

(** The user's part of the store is the list of statements run so far; a
    statement that starts with FAIL is refused. *)
Definition run (query : string) (u : list string) : option (list string) :=
  if String.prefix "FAIL" query then None else Some (u ++ [query]).

Definition healthy : Faults :=
  {| tableFails := false; indexFails := false; queryFails := false;
     beginFails := false; insertFails := fun _ => false;
     deleteFails := fun _ => false; commitFails := false; now := 0 |}.

Definition empty : DB (list string) := {| data := []; ledger := [] |}.

Definition m1 : Migration.t :=
  Migration.Make "1" "create t" ["CREATE TABLE t(id INT)"] ["DROP TABLE t"].
Definition m2 : Migration.t :=
  Migration.Make "2" "add name" ["ALTER TABLE t ADD COLUMN name TEXT"; "   "]
                 ["-- Cannot restore"; "ALTER TABLE t DROP COLUMN name"].
Definition bad : Migration.t :=
  Migration.Make "3" "fails" ["FAIL"] [].

(** Registered out of order. *)
Definition registered : Migrator.t := Register [m2; m1] New.

(** The store after the two migrations were applied in one batch. *)
Definition applied : DB (list string) :=
  {| data := ["CREATE TABLE t(id INT)"; "ALTER TABLE t ADD COLUMN name TEXT"];
     ledger := [MigrationStatus.Make "1" "create t" (Some 0) 1;
                MigrationStatus.Make "2" "add name" (Some 0) 1] |}.

(** A store that refuses the commit, and one that refuses to begin. *)
Definition commitRefused : Faults :=
  {| tableFails := false; indexFails := false; queryFails := false;
     beginFails := false; insertFails := fun _ => false;
     deleteFails := fun _ => false; commitFails := true; now := 0 |}.
Definition beginRefused : Faults :=
  {| tableFails := false; indexFails := false; queryFails := false;
     beginFails := true; insertFails := fun _ => false;
     deleteFails := fun _ => false; commitFails := false; now := 0 |}.
Definition tableRefused : Faults :=
  {| tableFails := true; indexFails := false; queryFails := false;
     beginFails := false; insertFails := fun _ => false;
     deleteFails := fun _ => false; commitFails := false; now := 0 |}.

(** The same identifier registered twice. *)
Definition twice : Migrator.t := Register [m1; m1] New.

(** A third migration, to be registered later. *)
Definition m3 : Migration.t :=
  Migration.Make "3" "create u" ["CREATE TABLE u(id INT)"] ["DROP TABLE u"].

End Example.

(** * Properties *)

(** ** Strings *)

Section StringFacts.
Import GoStrings.

Lemma trimLeft_empty s : trimLeft s = EmptyString <-> whitespaceOnly s.
Proof.
  unfold whitespaceOnly.
  induction s as [|c s IH]; simpl; [tauto|].
  destruct (asciiSpace c); simpl; [exact IH|].
  split; discriminate.
Qed.

Lemma trimRight_empty s : trimRight s = EmptyString <-> whitespaceOnly s.
Proof.
  unfold whitespaceOnly.
  induction s as [|c s IH]; simpl; [tauto|].
  destruct (trimRight s) eqn:E.
  - destruct (asciiSpace c); simpl; [tauto|]. split; discriminate.
  - split; [discriminate|]. intros H.
    apply andb_true_iff in H as [_ H]. apply IH in H. discriminate.
Qed.

Lemma allSpace_trimLeft s : allSpace (trimLeft s) = allSpace s.
Proof.
  induction s as [|c s IH]; simpl; [reflexivity|].
  destruct (asciiSpace c) eqn:E; simpl; [exact IH|].
  now rewrite E.
Qed.

Lemma TrimSpace_empty s : TrimSpace s = EmptyString <-> whitespaceOnly s.
Proof.
  unfold TrimSpace. rewrite trimRight_empty. unfold whitespaceOnly.
  now rewrite allSpace_trimLeft.
Qed.

(** The test of the forward loop. *)
Lemma forward_test q : String.eqb (TrimSpace q) "" = allSpace q.
Proof.
  destruct (allSpace q) eqn:E.
  - apply String.eqb_eq, TrimSpace_empty, E.
  - apply String.eqb_neq. intros H. apply TrimSpace_empty in H.
    unfold whitespaceOnly in H. congruence.
Qed.

(** A first character that is no space stays first under [trimRight]. *)
Lemma trimRight_head c s :
  asciiSpace c = false -> trimRight (String c s) = String c (trimRight s).
Proof.
  intros Hc. simpl. rewrite Hc. now destruct (trimRight s).
Qed.

Lemma trimRight_cons_inv s a r :
  trimRight s = String a r -> exists s', s = String a s' /\
    (r = trimRight s' \/ (r = EmptyString /\ trimRight s' = EmptyString)).
Proof.
  destruct s as [|c s]; simpl; [discriminate|].
  destruct (trimRight s) eqn:E.
  - destruct (asciiSpace c); [discriminate|].
    intros [= <- <-]. exists s. split; [reflexivity|]. right. now split.
  - intros [= <- <-]. exists s. split; [reflexivity|]. left. now rewrite E.
Qed.


Lemma comment_app rest : "--" +:+ rest = String "-" (String "-" rest).
Proof. reflexivity. Qed.

Lemma prefix_comment_iff s :
  String.prefix "--" s = true <-> exists rest, s = "--" +:+ rest.
Proof.
  split.
  - destruct s as [|a [|b s]]; cbn -[ascii_dec]; try discriminate.
    + destruct (ascii_dec "-" a); discriminate.
    + destruct (ascii_dec "-" a) as [<-|]; [|discriminate].
      destruct (ascii_dec "-" b) as [<-|]; [|discriminate].
      intros _. now exists s.
  - intros [rest ->]. now destruct rest.
Qed.

Lemma prefix_trimRight s :
  String.prefix "--" (trimRight s) = String.prefix "--" s.
Proof.
  destruct (String.prefix "--" s) eqn:P.
  - apply prefix_comment_iff in P as [rest ->].
    apply prefix_comment_iff. exists (trimRight rest). rewrite !comment_app.
    rewrite !trimRight_head by reflexivity. reflexivity.
  - destruct (String.prefix "--" (trimRight s)) eqn:Q; [|reflexivity].
    apply prefix_comment_iff in Q as [rest E]. rewrite comment_app in E.
    apply trimRight_cons_inv in E as (s' & -> & [E|[E _]]); [|discriminate].
    symmetry in E. apply trimRight_cons_inv in E as (s'' & -> & _).
    assert (String.prefix "--" (String "-" (String "-" s'')) = true) as P'
      by (apply prefix_comment_iff; now exists s'').
    congruence.
Qed.

(** The test of the reverse loop. *)
Lemma reverse_test q :
  String.eqb (TrimSpace q) "" || HasPrefix (TrimSpace q) "--"
  = allSpace q || String.prefix "--" (trimLeft q).
Proof.
  rewrite forward_test. unfold HasPrefix, TrimSpace.
  now rewrite prefix_trimRight.
Qed.






End StringFacts.

(** ** The builder *)

Section FieldFacts.
Import GoStrings.






End FieldFacts.

Section BuilderFacts.
Import GoStrings Builder.


(** C9, as the code has it: every structural call and [Raw] that returns
    appends exactly one forward statement and prepends exactly one reverse
    statement; [RawUp] appends one forward statement and leaves the reverse
    sequence alone; [RawDown] prepends one reverse statement and leaves the
    forward sequence alone. *)
Theorem C9_call_appends_and_prepends (c : call) (b b' : MigrationBuilder) :
  perform c b = Returned b' ->
  match c with
  | CallRawUp q =>
      upQueries (migration b') = upQueries (migration b) ++ [q]
      /\ downQueries (migration b') = downQueries (migration b)
  | CallRawDown q =>
      upQueries (migration b') = upQueries (migration b)
      /\ downQueries (migration b') = q :: downQueries (migration b)
  | _ =>
      exists up down,
        upQueries (migration b') = upQueries (migration b) ++ [up]
        /\ downQueries (migration b') = down :: downQueries (migration b)
  end.
Proof.
  destruct c; simpl; unfold AddColumn;
    try (intros [= <-]; simpl; eauto; fail).
  destruct (Fields columnDef); [discriminate|].
  intros [= <-]. simpl. eauto.
Qed.

Lemma C9_call_appends_and_prepends_witness :
  exists b',
    perform (CallCreateTable "users" ["id INT"; "name TEXT"]) (CreateMigration "1" "users")
    = Returned b'
    /\ exists up down,
         upQueries (migration b') = [] ++ [up] /\ downQueries (migration b') = [down].
Proof.
  eexists. split; [reflexivity|].
  exact (C9_call_appends_and_prepends
           (CallCreateTable "users" ["id INT"; "name TEXT"])
           (CreateMigration "1" "users") _ eq_refl).
Defined.

(** C9 fails as stated: [RawUp] is on the listed surface and prepends no
    reverse statement. *)
Lemma C9_RawUp_prepends_nothing :
  exists b',
    perform (CallRawUp "SELECT 1;") (CreateMigration "1" "raw up query") = Returned b'
    /\ upQueries (migration b') = ["SELECT 1;"]
    /\ downQueries (migration b') = [].
Proof. eexists. repeat split. Qed.

End BuilderFacts.

(** ** Sorting *)

Section SortFacts.
Context {A : Type} (less : A -> A -> bool).

(** [a] may stand before [b] in a slice sorted by [less]. *)
Let notAfter (a b : A) : Prop := less b a = false.

Lemma insert_Permutation x l : Permutation (GoSort.insert less x l) (x :: l).
Proof.
  induction l as [|y l IH]; simpl; [reflexivity|].
  destruct (less x y); [reflexivity|].
  rewrite IH. apply perm_swap.
Qed.

Lemma Slice_from_Permutation l acc :
  Permutation (fold_left (fun sorted x => GoSort.insert less x sorted) l acc) (acc ++ l).
Proof.
  revert acc. induction l as [|x l IH]; intros acc; simpl.
  - now rewrite app_nil_r.
  - rewrite IH, insert_Permutation.
    change (x :: acc ++ l) with ((x :: acc) ++ l).
    rewrite (Permutation_middle acc l x). reflexivity.
Qed.

Lemma Slice_Permutation l : Permutation (GoSort.Slice less l) l.
Proof. apply (Slice_from_Permutation l []). Qed.

Lemma Slice_length l : length (GoSort.Slice less l) = length l.
Proof. apply Permutation_length, Slice_Permutation. Qed.

Hypothesis less_asym : forall a b, less a b = true -> less b a = false.
Hypothesis notAfter_trans : forall a b c, notAfter a b -> notAfter b c -> notAfter a c.

Lemma insert_Sorted x l :
  Sorted notAfter l -> Sorted notAfter (GoSort.insert less x l).
Proof.
  induction l as [|y l IH]; simpl; intros Hs.
  - repeat constructor.
  - destruct (less x y) eqn:E.
    + constructor; [exact Hs|]. constructor. now apply less_asym.
    + apply Sorted_inv in Hs as [Hs Hd]. constructor; [now apply IH|].
      destruct l as [|z l]; simpl.
      * constructor. exact E.
      * destruct (less x z); constructor; [exact E|].
        now apply HdRel_inv in Hd.
Qed.

Lemma Slice_from_Sorted l acc :
  Sorted notAfter acc ->
  Sorted notAfter (fold_left (fun sorted x => GoSort.insert less x sorted) l acc).
Proof.
  revert acc. induction l as [|x l IH]; intros acc Hs; simpl; [exact Hs|].
  apply IH, insert_Sorted, Hs.
Qed.

Lemma Slice_StronglySorted l : StronglySorted notAfter (GoSort.Slice less l).
Proof.
  apply Sorted_StronglySorted.
  - intros a b c. apply notAfter_trans.
  - apply Slice_from_Sorted. constructor.
Qed.

End SortFacts.

Section OrderFacts.
Import GoStrings Migrator Observed.

Lemma compare_refl a : String.compare a a = Eq.
Proof. now apply (String_as_OT.cmp_eq a a). Qed.

Lemma less_irrefl a : less a a = false.
Proof. unfold less, String.ltb. now rewrite compare_refl. Qed.

Lemma less_asym a b : less a b = true -> less b a = false.
Proof.
  unfold less, String.ltb. rewrite (String.compare_antisym a b).
  destruct (String.compare b a); simpl; congruence.
Qed.

Lemma less_true_iff a b : less a b = true <-> String_as_OT.lt a b.
Proof.
  unfold less, String.ltb. rewrite <- String_as_OT.cmp_lt. unfold String_as_OT.cmp.
  destruct (String.compare a b); split; congruence.
Qed.

Lemma idLe_cases a b : idLe a b <-> a = b \/ less a b = true.
Proof.
  unfold idLe, less, String.ltb. rewrite (String.compare_antisym a b).
  destruct (String.compare b a) eqn:E; simpl.
  - apply String.compare_eq_iff in E. subst. tauto.
  - split; [discriminate|]. intros [->|H]; [|discriminate].
    rewrite compare_refl in E. discriminate.
  - tauto.
Qed.

Lemma less_trans a b c : less a b = true -> less b c = true -> less a c = true.
Proof.
  intros H1 H2. apply (proj1 (less_true_iff _ _)) in H1.
  apply (proj1 (less_true_iff _ _)) in H2. apply (proj2 (less_true_iff _ _)).
  eapply String_as_OT.lt_trans; eassumption.
Qed.

Lemma idLe_trans a b c : idLe a b -> idLe b c -> idLe a c.
Proof.
  intros H1 H2. apply (proj1 (idLe_cases _ _)) in H1.
  apply (proj1 (idLe_cases _ _)) in H2. apply (proj2 (idLe_cases _ _)).
  destruct H1 as [->|H1], H2 as [->|H2]; auto.
  right. eapply less_trans; eassumption.
Qed.


Lemma idLe_total a b : idLe a b \/ idLe b a.
Proof.
  unfold idLe. destruct (less b a) eqn:E; [|now left].
  right. now apply less_asym.
Qed.

Lemma byID_asym a b : byID a b = true -> byID b a = false.
Proof. apply less_asym. Qed.

Lemma idLe_refl a : idLe a a.
Proof. apply less_irrefl. Qed.

Lemma not_idLe a b : less b a = true -> idLe b a.
Proof. apply less_asym. Qed.


Lemma byBatchID_false a b : byBatchID b a = false <-> ascByBatchID a b.
Proof.
  unfold byBatchID, ascByBatchID, idLe.
  rewrite orb_false_iff, andb_false_iff, Z.ltb_ge, Z.eqb_neq.
  split.
  - intros [H1 [H2|H2]]; [left; lia|].
    destruct (Z.eq_dec (MigrationStatus.Batch a) (MigrationStatus.Batch b)) as [E|E];
      [right|left; lia].
    split; [exact E|exact H2].
  - intros [H|[H1 H2]].
    + split; [lia|]. left. lia.
    + split; [lia|]. right. exact H2.
Qed.


Lemma byBatchID_asym a b : byBatchID a b = true -> byBatchID b a = false.
Proof.
  unfold byBatchID. rewrite orb_true_iff, andb_true_iff, orb_false_iff, andb_false_iff.
  rewrite !Z.ltb_lt, !Z.ltb_ge, Z.eqb_eq, Z.eqb_neq.
  intros [H|[H1 H2]].
  - split; [lia|]. left. lia.
  - split; [lia|]. right. now apply less_asym.
Qed.


Lemma ascByBatchID_trans a b c :
  ascByBatchID a b -> ascByBatchID b c -> ascByBatchID a c.
Proof.
  unfold ascByBatchID. intros [H1|[H1 L1]] [H2|[H2 L2]].
  - left. lia.
  - left. lia.
  - left. lia.
  - right. split; [lia|]. eapply idLe_trans; eassumption.
Qed.

Lemma StronglySorted_impl {A} (R S : A -> A -> Prop) l :
  (forall a b, R a b -> S a b) -> StronglySorted R l -> StronglySorted S l.
Proof.
  intros HRS. induction 1 as [|a l Hs IH Hf]; constructor; [exact IH|].
  eapply Forall_impl; [exact Hf|]. intros b. apply HRS.
Qed.

(** What [sort.Slice] leaves for the three comparisons of the engine. *)
Lemma sorted_byID l : StronglySorted ascByID (GoSort.Slice byID l).
Proof.
  apply (Slice_StronglySorted byID).
  - intros a b. apply byID_asym.
  - intros a b c. unfold byID. apply idLe_trans.
Qed.


Lemma sorted_byBatchID l :
  StronglySorted ascByBatchID (GoSort.Slice byBatchID l).
Proof.
  eapply StronglySorted_impl; [|apply (Slice_StronglySorted byBatchID)].
  - intros a b. apply (proj1 (byBatchID_false a b)).
  - apply byBatchID_asym.
  - intros a b c H1 H2. apply (proj2 (byBatchID_false a c)).
    apply (proj1 (byBatchID_false _ _)) in H1.
    apply (proj1 (byBatchID_false _ _)) in H2.
    eapply ascByBatchID_trans; eassumption.
Qed.

End OrderFacts.

(** ** Statements inside a transaction *)

Section StatementFacts.
Import GoStrings Migrator Observed.
Context {U : Type} (execStmt : string -> U -> option U).

Lemma Tx_eta (tx : Tx U) :
  tx = {| work := {| data := data (work tx); ledger := ledger (work tx) |};
          calls := calls tx ++ [] |}.
Proof. destruct tx as [[d l] c]. simpl. now rewrite app_nil_r. Qed.

Lemma runStatements_app qs1 qs2 u :
  runStatements U execStmt (qs1 ++ qs2) u =
  let '(a1, u1, ok1) := runStatements U execStmt qs1 u in
  if ok1 then
    let '(a2, u2, ok2) := runStatements U execStmt qs2 u1 in (a1 ++ a2, u2, ok2)
  else (a1, u1, false).
Proof.
  revert u. induction qs1 as [|q qs1 IH]; intros u; simpl.
  - now destruct (runStatements U execStmt qs2 u) as [[a2 u2] ok2].
  - destruct (execStmt q u) as [u'|]; [|reflexivity].
    rewrite IH. destruct (runStatements U execStmt qs1 u') as [[a1 u1] ok1].
    destruct ok1; [|reflexivity].
    now destruct (runStatements U execStmt qs2 u1) as [[a2 u2] ok2].
Qed.

(** The attempted statements are a prefix of the given ones, all of them
    when nothing failed. *)
Lemma runStatements_attempted qs u :
  let '(attempted, _, ok) := runStatements U execStmt qs u in
  exists n, attempted = firstn n qs /\ (ok = true -> attempted = qs).
Proof.
  revert u. induction qs as [|q qs IH]; intros u; simpl.
  - exists 0%nat. now split.
  - destruct (execStmt q u) as [u'|].
    + specialize (IH u'). destruct (runStatements U execStmt qs u') as [[a u1] ok].
      destruct IH as (n & -> & Hok). exists (S n). split; [reflexivity|].
      intros H. now rewrite (Hok H) at 1.
    + exists 1%nat. split; [reflexivity|discriminate].
Qed.

Lemma execUpQueries_spec queries (tx : Tx U) :
  execUpQueries U execStmt queries tx =
  let '(attempted, u, ok) :=
    runStatements U execStmt (forwardKept queries) (data (work tx)) in
  (if ok then None else Some (ErrJoin ErrFailedToExecuteQuery ErrDriver),
   {| work := {| data := u; ledger := ledger (work tx) |};
      calls := calls tx ++ map EvExec attempted |}).
Proof.
  revert tx. induction queries as [|q queries IH]; intros tx.
  - simpl. now rewrite (Tx_eta tx) at 1.
  - cbn [execUpQueries]. rewrite forward_test. unfold forwardKept. cbn [List.filter].
    destruct (allSpace q); cbn [negb]; [apply IH|].
    cbn [runStatements]. unfold ExecContext.
    destruct (execStmt q (data (work tx))) as [u'|];
      [|now destruct tx as [[d l] c]].
    rewrite IH. cbn [work data ledger calls]. fold (forwardKept queries).
    destruct (runStatements U execStmt (forwardKept queries) u') as [[a u1] ok].
    cbn [map]. now rewrite <- app_assoc.
Qed.

Lemma execDownQueries_spec queries (tx : Tx U) :
  execDownQueries U execStmt queries tx =
  let '(attempted, u, ok) :=
    runStatements U execStmt (reverseKept queries) (data (work tx)) in
  (if ok then None else Some (ErrJoin ErrMigrationFailed ErrDriver),
   {| work := {| data := u; ledger := ledger (work tx) |};
      calls := calls tx ++ map EvExec attempted |}).
Proof.
  revert tx. induction queries as [|q queries IH]; intros tx.
  - simpl. now rewrite (Tx_eta tx) at 1.
  - cbn [execDownQueries]. cbv zeta. rewrite reverse_test.
    unfold reverseKept. cbn [List.filter].
    destruct (allSpace q || String.prefix "--" (trimLeft q)); cbn [negb]; [apply IH|].
    cbn [runStatements]. unfold ExecContext.
    destruct (execStmt q (data (work tx))) as [u'|];
      [|now destruct tx as [[d l] c]].
    rewrite IH. cbn [work data ledger calls]. fold (reverseKept queries).
    destruct (runStatements U execStmt (reverseKept queries) u') as [[a u1] ok].
    cbn [map]. now rewrite <- app_assoc.
Qed.




End StatementFacts.

(** ** Identifiers, the applied map and the migration map *)

Section LookupFacts.
Import GoStrings Migrator Observed.

Lemma filter_Permutation' {A} (f : A -> bool) l l' :
  Permutation l l' -> Permutation (List.filter f l) (List.filter f l').
Proof.
  induction 1 as [|x l l' _ IH|x y l|l l' l'' _ IH1 _ IH2]; simpl.
  - constructor.
  - destruct (f x); [now constructor|exact IH].
  - destruct (f x), (f y); try reflexivity. apply perm_swap.
  - etransitivity; eassumption.
Qed.


Lemma hasID_In id rows :
  hasID id rows = true <-> In id (map MigrationStatus.ID rows).
Proof.
  unfold hasID. rewrite existsb_exists, in_map_iff. split.
  - intros (row & Hin & E). apply String.eqb_eq in E. eauto.
  - intros (row & E & Hin). exists row. split; [exact Hin|]. now apply String.eqb_eq.
Qed.

Lemma hasID_Permutation id rows rows' :
  Permutation rows rows' -> hasID id rows = hasID id rows'.
Proof.
  intros HP. apply eq_true_iff_eq. rewrite !hasID_In.
  split; apply Permutation_in; [|symmetry]; now apply Permutation_map.
Qed.

Lemma hasID_app id rows rows' :
  hasID id (rows ++ rows') = hasID id rows || hasID id rows'.
Proof. apply existsb_app. Qed.

Lemma buildAppliedMap_from applied (m0 : gmap string bool) id :
  default false
    (fold_left (fun appliedMap a => <[MigrationStatus.ID a := true]> appliedMap) applied m0
       !! id)
  = hasID id applied || default false (m0 !! id).
Proof.
  revert m0. induction applied as [|a applied IH]; intros m0; simpl; [reflexivity|].
  rewrite IH. destruct (String.eqb_spec (MigrationStatus.ID a) id) as [->|Hne].
  - rewrite lookup_insert_eq. simpl. now rewrite orb_true_r.
  - rewrite lookup_insert_ne by exact Hne. reflexivity.
Qed.

(** Reading [appliedMap] tells whether the identifier has a Ledger row. *)
Lemma isApplied_buildAppliedMap applied id :
  isApplied (buildAppliedMap applied) id = hasID id applied.
Proof.
  unfold isApplied, buildAppliedMap. rewrite buildAppliedMap_from.
  rewrite lookup_empty. simpl. apply orb_false_r.
Qed.

Lemma find_app' {A} (f : A -> bool) l l' :
  find f (l ++ l') = match find f l with Some x => Some x | None => find f l' end.
Proof.
  induction l as [|x l IH]; simpl; [reflexivity|]. now destruct (f x).
Qed.

Lemma buildMigrationMap_from migrations (m0 : gmap string Migration.t) id :
  fold_left (fun migrationMap m => <[Migration.ID m := m]> migrationMap) migrations m0 !! id
  = match find (fun m => String.eqb (Migration.ID m) id) (rev migrations) with
    | Some m => Some m
    | None => m0 !! id
    end.
Proof.
  revert m0. induction migrations as [|m migrations IH]; intros m0; simpl; [reflexivity|].
  rewrite IH, find_app'.
  destruct (find (fun m1 => String.eqb (Migration.ID m1) id) (rev migrations));
    [reflexivity|].
  simpl. destruct (String.eqb_spec (Migration.ID m) id) as [->|Hne].
  - now rewrite lookup_insert_eq.
  - now rewrite lookup_insert_ne.
Qed.

(** [migrationMap] holds, for an identifier, the candidate registered last
    under it; it has no entry exactly for the identifiers not registered. *)
Lemma buildMigrationMap_lookup migrations id :
  buildMigrationMap migrations !! id
  = find (fun m => String.eqb (Migration.ID m) id) (rev migrations).
Proof.
  unfold buildMigrationMap. rewrite buildMigrationMap_from, lookup_empty.
  now destruct (find _ _).
Qed.

Lemma buildMigrationMap_None migrations id :
  buildMigrationMap migrations !! id = None
  <-> forall m, In m migrations -> Migration.ID m <> id.
Proof.
  rewrite buildMigrationMap_lookup. split.
  - intros H m Hin E. apply in_rev in Hin.
    apply (find_none _ _ H) in Hin. apply String.eqb_neq in Hin. contradiction.
  - intros H. destruct (find _ _) as [m|] eqn:F; [|reflexivity].
    apply find_some in F as [Hin E]. apply in_rev in Hin.
    apply String.eqb_eq in E. now apply H in Hin.
Qed.

Lemma buildMigrationMap_Some migrations id m :
  buildMigrationMap migrations !! id = Some m ->
  In m migrations /\ Migration.ID m = id.
Proof.
  rewrite buildMigrationMap_lookup. intros F.
  apply find_some in F as [Hin E]. apply in_rev in Hin.
  now apply String.eqb_eq in E.
Qed.

Lemma withoutIDs_nil rows : withoutIDs [] rows = rows.
Proof.
  unfold withoutIDs. induction rows as [|r rows IH]; simpl in *; congruence.
Qed.

Lemma withoutIDs_cons id ids rows :
  withoutIDs ids
    (List.filter (fun row => negb (String.eqb (MigrationStatus.ID row) id)) rows)
  = withoutIDs (id :: ids) rows.
Proof.
  unfold withoutIDs. induction rows as [|r rows IH]; simpl; [reflexivity|].
  destruct (String.eqb (MigrationStatus.ID r) id); simpl; [exact IH|].
  destruct (existsb _ ids); simpl; [exact IH|]. now rewrite IH.
Qed.

End LookupFacts.

(** ** Applying a batch *)

Section ApplyFacts.
Import GoStrings Migrator Observed.
Context {U : Type} (execStmt : string -> U -> option U).

Lemma insertedIDs_app evs evs' :
  insertedIDs (evs ++ evs') = insertedIDs evs ++ insertedIDs evs'.
Proof. apply flat_map_app. Qed.

Lemma insertedBatches_app evs evs' :
  insertedBatches (evs ++ evs') = insertedBatches evs ++ insertedBatches evs'.
Proof. apply flat_map_app. Qed.

Lemma deletedIDs_app evs evs' :
  deletedIDs (evs ++ evs') = deletedIDs evs ++ deletedIDs evs'.
Proof. apply flat_map_app. Qed.

Lemma insertedIDs_exec qs : insertedIDs (map EvExec qs) = [].
Proof. induction qs; simpl; auto. Qed.

Lemma insertedBatches_exec qs : insertedBatches (map EvExec qs) = [].
Proof. induction qs; simpl; auto. Qed.

Lemma deletedIDs_exec qs : deletedIDs (map EvExec qs) = [].
Proof. induction qs; simpl; auto. Qed.

(** Applying one migration, when it goes through. *)
Lemma executeMigrationUp_ok env (tx tx' : Tx U) m batch :
  executeMigrationUp U execStmt env tx m batch = (None, tx') ->
  ledger (work tx') = ledger (work tx) ++ [appliedRow env batch m]
  /\ calls tx' = calls tx ++ applyEvents batch m
  /\ runStatements U execStmt (forwardKept (Migration.Up m)) (data (work tx))
     = (forwardKept (Migration.Up m), data (work tx'), true)
  /\ insertFails env (Migration.ID m) = false
  /\ hasID (Migration.ID m) (ledger (work tx)) = false.
Proof.
  unfold executeMigrationUp. rewrite execUpQueries_spec.
  pose proof (runStatements_attempted execStmt (forwardKept (Migration.Up m))
                (data (work tx))) as Hatt.
  destruct (runStatements U execStmt (forwardKept (Migration.Up m)) (data (work tx)))
    as [[a u] ok].
  destruct Hatt as (n & _ & Hall). destruct ok; [|discriminate].
  rewrite (Hall eq_refl). unfold insertMigrationRecord. cbn [work ledger data calls].
  destruct (insertFails env (Migration.ID m) || hasID (Migration.ID m) (ledger (work tx)))
    eqn:E; [discriminate|].
  apply orb_false_iff in E as [E1 E2].
  intros [= <-]. cbn [work ledger data calls]. unfold applyEvents.
  rewrite <- app_assoc. repeat split; assumption.
Qed.

(** Applying one migration, whatever happens: the calls made are statements
    followed by at most one Ledger INSERT, of this migration and batch. *)
Lemma executeMigrationUp_calls env (tx : Tx U) m batch :
  exists new,
    calls (executeMigrationUp U execStmt env tx m batch).2 = calls tx ++ new
    /\ Forall (eq batch) (insertedBatches new)
    /\ deletedIDs new = []
    /\ ((insertedIDs new = []
         /\ (executeMigrationUp U execStmt env tx m batch).1 <> None)
        \/ insertedIDs new = [Migration.ID m]).
Proof.
  unfold executeMigrationUp. rewrite execUpQueries_spec.
  destruct (runStatements U execStmt (forwardKept (Migration.Up m)) (data (work tx)))
    as [[a u] ok].
  destruct ok.
  - exists (map EvExec a ++ [EvInsert (Migration.ID m) (Migration.Description m) batch]).
    rewrite insertedBatches_app, insertedIDs_app, deletedIDs_app,
      insertedBatches_exec, insertedIDs_exec, deletedIDs_exec.
    unfold insertMigrationRecord, logged. cbn [work ledger data calls].
    destruct (insertFails env (Migration.ID m) || hasID (Migration.ID m) (ledger (work tx)));
      cbn [snd calls]; rewrite <- app_assoc; repeat split; auto; simpl; auto.
  - exists (map EvExec a).
    rewrite insertedBatches_exec, insertedIDs_exec, deletedIDs_exec.
    cbn [fst snd calls]. repeat split; auto;
      try (left; split; [reflexivity|discriminate]).
Qed.

Lemma execBatch_ok env migrations batch (tx tx' : Tx U) :
  execBatch U execStmt env migrations batch tx = (None, tx') ->
  ledger (work tx') = ledger (work tx) ++ map (appliedRow env batch) migrations
  /\ calls tx' = calls tx ++ flat_map (applyEvents batch) migrations
  /\ runStatements U execStmt
       (flat_map (fun m => forwardKept (Migration.Up m)) migrations) (data (work tx))
     = (flat_map (fun m => forwardKept (Migration.Up m)) migrations, data (work tx'), true)
  /\ (forall m, In m migrations -> hasID (Migration.ID m) (ledger (work tx)) = false)
  /\ List.NoDup (map Migration.ID migrations).
Proof.
  revert tx. induction migrations as [|m migrations IH]; intros tx.
  - intros [= <-]. simpl. rewrite !app_nil_r. repeat split; [tauto|constructor].
  - cbn [execBatch].
    destruct (executeMigrationUp U execStmt env tx m batch) as [[e|] tx1] eqn:E1;
      [discriminate|].
    apply executeMigrationUp_ok in E1 as (L1 & C1 & R1 & _ & H1).
    intros E2. apply IH in E2 as (L2 & C2 & R2 & H2 & N2).
    rewrite L1 in L2, H2. rewrite C1 in C2.
    cbn [map flat_map]. rewrite runStatements_app, R1, R2.
    rewrite L2, C2, <- !app_assoc. repeat split.
    + intros m' [<-|Hin]; [exact H1|].
      specialize (H2 m' Hin). rewrite hasID_app in H2.
      now apply orb_false_iff in H2.
    + constructor; [|exact N2]. intros Hin. apply in_map_iff in Hin as (m' & E & Hin).
      specialize (H2 m' Hin). rewrite hasID_app, E in H2.
      apply orb_false_iff in H2 as [_ H2]. simpl in H2.
      now rewrite String.eqb_refl in H2.
Qed.

(** The Ledger INSERTs of a batch go through the migrations in the order
    given, all with the batch number given. *)
Lemma execBatch_calls env migrations batch (tx : Tx U) :
  exists new n,
    calls (execBatch U execStmt env migrations batch tx).2 = calls tx ++ new
    /\ Forall (eq batch) (insertedBatches new)
    /\ deletedIDs new = []
    /\ insertedIDs new = map Migration.ID (firstn n migrations).
Proof.
  revert tx. induction migrations as [|m migrations IH]; intros tx.
  - exists [], 0%nat. simpl. rewrite app_nil_r. repeat split; constructor.
  - cbn [execBatch].
    destruct (executeMigrationUp_calls env tx m batch) as (new1 & C1 & B1 & D1 & I1).
    destruct (executeMigrationUp U execStmt env tx m batch) as [[e|] tx1] eqn:E1.
    + cbn [fst snd] in *. exists new1.
      destruct I1 as [[I1 _]|I1].
      * exists 0%nat. repeat split; auto.
      * exists 1%nat. repeat split; auto.
    + cbn [fst snd] in *. destruct I1 as [[_ I1]|I1]; [congruence|].
      destruct (IH tx1) as (new2 & n & C2 & B2 & D2 & I2).
      exists (new1 ++ new2), (S n).
      rewrite C2, C1, <- app_assoc, insertedBatches_app, insertedIDs_app,
        deletedIDs_app, I1, I2, D1, D2.
      repeat split; auto. apply Forall_app. now split.
Qed.

(** When a batch goes through. *)
Lemma execBatch_succeeds env migrations batch (tx : Tx U) :
  (forall m, In m migrations -> insertFails env (Migration.ID m) = false) ->
  (forall m, In m migrations -> hasID (Migration.ID m) (ledger (work tx)) = false) ->
  List.NoDup (map Migration.ID migrations) ->
  (runStatements U execStmt
     (flat_map (fun m => forwardKept (Migration.Up m)) migrations) (data (work tx))).2 = true ->
  (execBatch U execStmt env migrations batch tx).1 = None.
Proof.
  revert tx. induction migrations as [|m migrations IH]; intros tx HF HL HN HR;
    [reflexivity|].
  cbn [execBatch]. unfold executeMigrationUp. rewrite execUpQueries_spec.
  cbn [flat_map] in HR. rewrite runStatements_app in HR.
  pose proof (runStatements_attempted execStmt (forwardKept (Migration.Up m))
                (data (work tx))) as Hatt.
  destruct (runStatements U execStmt (forwardKept (Migration.Up m)) (data (work tx)))
    as [[a u] ok].
  destruct ok; [|discriminate].
  unfold insertMigrationRecord. cbn [work ledger data calls].
  rewrite (HF m (or_introl eq_refl)), (HL m (or_introl eq_refl)). cbn [orb].
  apply IH.
  - intros m' Hin. apply HF. now right.
  - intros m' Hin. cbn [work ledger]. rewrite hasID_app, (HL m' (or_intror Hin)).
    simpl. rewrite orb_false_r. apply String.eqb_neq. intros E.
    apply List.NoDup_cons_iff in HN as [HN _]. apply HN. rewrite E.
    now apply in_map.
  - now apply List.NoDup_cons_iff in HN.
  - cbn [work data].
    now destruct (runStatements U execStmt
                    (flat_map (fun m0 => forwardKept (Migration.Up m0)) migrations) u)
      as [[a2 u2] ok2].
Qed.

End ApplyFacts.

(** ** Up *)

Section UpFacts.
Import GoStrings Migrator Observed.
Context {U : Type} (execStmt : string -> U -> option U).

Lemma getAppliedMigrations_readable env (db : DB U) :
  readable env ->
  getAppliedMigrations U env db = (inr (appliedRows db), readEvents).
Proof.
  intros (H1 & H2 & H3). unfold getAppliedMigrations, createMigrationTable.
  now rewrite H1, H2, H3.
Qed.

(** A failed read of the Ledger has made no call inside a transaction. *)
Lemma getAppliedMigrations_failed env (db : DB U) e evs :
  getAppliedMigrations U env db = (inl e, evs) ->
  ~ readable env /\ Forall (fun ev => inTransaction ev = false) evs.
Proof.
  unfold getAppliedMigrations, createMigrationTable, readable.
  destruct (tableFails env), (indexFails env), (queryFails env);
    intros [= <- <-]; split; try (intros (? & ? & ?); discriminate);
    repeat constructor.
Qed.

Lemma len_zero {A} (l : list A) : (GoInt.len l =? 0) = true <-> l = [].
Proof.
  unfold GoInt.len. rewrite Z.eqb_eq. destruct l; simpl; [tauto|].
  split; [lia|discriminate].
Qed.

Lemma executeMigrationBatch_failed env migrations batch (db : DB U) :
  (executeMigrationBatch U execStmt env migrations batch db).1.1 <> None ->
  (executeMigrationBatch U execStmt env migrations batch db).1.2 = db.
Proof.
  unfold executeMigrationBatch, BeginTx.
  destruct (beginFails env); [reflexivity|].
  destruct (execBatch U execStmt env migrations batch _) as [[e|] tx']; [reflexivity|].
  destruct (commitFails env); [reflexivity|]. simpl. congruence.
Qed.

Lemma executeMigrationBatch_ok env migrations batch (db : DB U) :
  (executeMigrationBatch U execStmt env migrations batch db).1.1 = None ->
  exists tx',
    execBatch U execStmt env migrations batch {| work := db; calls := [EvBegin] |}
    = (None, tx')
    /\ executeMigrationBatch U execStmt env migrations batch db
       = (None, work tx', calls tx' ++ [EvCommit])
    /\ beginFails env = false /\ commitFails env = false.
Proof.
  unfold executeMigrationBatch, BeginTx.
  destruct (beginFails env); [discriminate|].
  destruct (execBatch U execStmt env migrations batch _) as [[e|] tx']; [discriminate|].
  destruct (commitFails env); [discriminate|]. intros _. now exists tx'.
Qed.

Lemma executeMigrationBatch_calls env migrations batch (db : DB U) :
  exists n,
    Forall (eq batch)
      (insertedBatches (executeMigrationBatch U execStmt env migrations batch db).2)
    /\ deletedIDs (executeMigrationBatch U execStmt env migrations batch db).2 = []
    /\ insertedIDs (executeMigrationBatch U execStmt env migrations batch db).2
       = map Migration.ID (firstn n migrations).
Proof.
  unfold executeMigrationBatch, BeginTx.
  destruct (beginFails env).
  - exists 0%nat. simpl. repeat split; constructor.
  - destruct (execBatch_calls execStmt env migrations batch {| work := db; calls := [EvBegin] |})
      as (new & n & C & B & D & I).
    exists n.
    destruct (execBatch U execStmt env migrations batch _) as [[e|] tx'];
      cbn [fst snd calls] in *; [|destruct (commitFails env)]; cbn [fst snd];
      rewrite C, !insertedBatches_app, !insertedIDs_app, !deletedIDs_app, D, I;
      simpl; rewrite !app_nil_r; repeat split; auto.
Qed.

Lemma Up_readable env r (db : DB U) :
  readable env ->
  Up U execStmt env r db =
  match pending r db with
  | [] => {| err := None; self := {| migrations := GoSort.Slice byID (migrations r) |};
             store := db; trace := readEvents |}
  | _ =>
      let '(e, db', evs') :=
        executeMigrationBatch U execStmt env (pending r db) (nextBatch db) db in
      {| err := e; self := {| migrations := GoSort.Slice byID (migrations r) |};
         store := db'; trace := readEvents ++ evs' |}
  end.
Proof.
  intros Hr. unfold Up. rewrite (getAppliedMigrations_readable env db Hr).
  fold (pending r db). fold (nextBatch db).
  destruct (pending r db) as [|m new] eqn:E; [reflexivity|].
  destruct (GoInt.len (m :: new) =? 0) eqn:L; [|reflexivity].
  apply len_zero in L. discriminate.
Qed.

Lemma Up_unreadable env r (db : DB U) :
  ~ readable env ->
  exists e evs,
    Up U execStmt env r db
    = {| err := Some (ErrJoin ErrFailedToGetAppliedMigrations e);
         self := r; store := db; trace := evs |}
    /\ Forall (fun ev => inTransaction ev = false) evs.
Proof.
  intros Hr. unfold Up.
  destruct (getAppliedMigrations U env db) as [[e|applied] evs] eqn:E.
  - exists e, evs. split; [reflexivity|].
    now apply getAppliedMigrations_failed in E.
  - exfalso. apply Hr. revert E.
    unfold getAppliedMigrations, createMigrationTable, readable.
    destruct (tableFails env), (indexFails env), (queryFails env);
      try discriminate. now intros _.
Qed.

Lemma readable_dec env : readable env \/ ~ readable env.
Proof.
  unfold readable.
  destruct (tableFails env), (indexFails env), (queryFails env);
    try (now left); right; intros (? & ? & ?); discriminate.
Qed.

(** The candidates left to apply are the registered ones without a Ledger
    row, in ascending order of identifier. *)
Lemma pending_spec r (db : DB U) :
  pending r db
  = List.filter (fun m => negb (hasID (Migration.ID m) (ledger db)))
                (GoSort.Slice byID (migrations r)).
Proof.
  unfold pending, newMigrations, appliedRows. apply filter_ext. intros m.
  rewrite isApplied_buildAppliedMap. f_equal.
  apply hasID_Permutation, Slice_Permutation.
Qed.


Lemma pending_Permutation r (db : DB U) :
  Permutation (pending r db)
    (List.filter (fun m => negb (hasID (Migration.ID m) (ledger db))) (migrations r)).
Proof. rewrite pending_spec. apply filter_Permutation', Slice_Permutation. Qed.

End UpFacts.

Section UpTheorems.
Import GoStrings Migrator Observed.
Context {U : Type} (execStmt : string -> U -> option U).

(** What a successful [Up] leaves in the store. *)
Lemma Up_ok env r (db : DB U) :
  err (Up U execStmt env r db) = None ->
  readable env
  /\ ledger (store (Up U execStmt env r db))
     = ledger db ++ map (appliedRow env (nextBatch db)) (pending r db)
  /\ runStatements U execStmt
       (flat_map (fun m => forwardKept (Migration.Up m)) (pending r db)) (data db)
     = (flat_map (fun m => forwardKept (Migration.Up m)) (pending r db),
        data (store (Up U execStmt env r db)), true)
  /\ trace (Up U execStmt env r db)
     = readEvents ++ match pending r db with
                     | [] => []
                     | _ => EvBegin :: flat_map (applyEvents (nextBatch db)) (pending r db)
                            ++ [EvCommit]
                     end
  /\ List.NoDup (map Migration.ID (pending r db)).
Proof.
  destruct (readable_dec env) as [Hr|Hr].
  - rewrite (Up_readable execStmt env r db Hr).
    destruct (pending r db) as [|m new] eqn:E.
    + intros _. simpl. rewrite app_nil_r. split; [exact Hr|].
      repeat split. constructor.
    + rewrite <- E.
      destruct (executeMigrationBatch U execStmt env (pending r db) (nextBatch db) db)
        as [[e db'] evs'] eqn:B.
      cbn [err store trace]. intros ->.
      destruct (executeMigrationBatch_ok execStmt env (pending r db) (nextBatch db) db)
        as (tx' & X & B' & _); [now rewrite B|].
      rewrite B in B'. injection B' as -> ->.
      apply execBatch_ok in X as (L & C & R & _ & N). cbn [work ledger data calls] in *.
      rewrite C. split; [exact Hr|]. repeat split; assumption.
  - destruct (Up_unreadable execStmt env r db Hr) as (e & evs & -> & _). discriminate.
Qed.

(** C1: [Up] is atomic.  When the call fails, whether on a forward
    statement, on a Ledger INSERT or anywhere else, the store is what it was
    before: no statement's effect and no Ledger row of the batch persists.
    When it succeeds, the store holds the effect of every forward statement
    of every migration of the batch, and one Ledger row for each. *)
Theorem C1_up_atomic (env : Faults) (r : Migrator.t) (db : DB U) :
  let res := Up U execStmt env r db in
  (err res <> None -> store res = db)
  /\ (err res = None ->
      ledger (store res)
      = ledger db ++ map (appliedRow env (nextBatch db)) (pending r db)
      /\ runStatements U execStmt
           (flat_map (fun m => forwardKept (Migration.Up m)) (pending r db)) (data db)
         = (flat_map (fun m => forwardKept (Migration.Up m)) (pending r db),
            data (store res), true)).
Proof.
  cbv zeta. split.
  - destruct (readable_dec env) as [Hr|Hr].
    + rewrite (Up_readable execStmt env r db Hr).
      destruct (pending r db) as [|m new] eqn:E; [reflexivity|]. rewrite <- E.
      pose proof (executeMigrationBatch_failed execStmt env (pending r db)
                    (nextBatch db) db) as F.
      destruct (executeMigrationBatch U execStmt env (pending r db) (nextBatch db) db)
        as [[e db'] evs']. exact F.
    + now destruct (Up_unreadable execStmt env r db Hr) as (e & evs & -> & _).
  - intros H. apply Up_ok in H as (_ & L & R & _). now split.
Qed.

(** After a successful [Up] every registered identifier has a Ledger row. *)
Lemma Up_ok_all_applied env r (db : DB U) m :
  err (Up U execStmt env r db) = None -> In m (migrations r) ->
  hasID (Migration.ID m) (ledger (store (Up U execStmt env r db))) = true.
Proof.
  intros H Hin. apply Up_ok in H as (_ & L & _). rewrite L, hasID_app.
  destruct (hasID (Migration.ID m) (ledger db)) eqn:E; [reflexivity|]. simpl.
  apply hasID_In. rewrite map_map. simpl. apply in_map.
  apply (Permutation_in m (Permutation_sym (pending_Permutation r db))).
  apply filter_In. split; [exact Hin|]. now rewrite E.
Qed.

Lemma filter_none {A} (f : A -> bool) l :
  (forall x, In x l -> f x = false) -> List.filter f l = [].
Proof.
  induction l as [|x l IH]; intros H; simpl; [reflexivity|].
  rewrite (H x (or_introl eq_refl)). apply IH. intros y Hy. apply H. now right.
Qed.

(** With every registered identifier applied, [Up] only reads the Ledger. *)
Lemma Up_nothing_pending env r (db : DB U) :
  readable env ->
  (forall m, In m (migrations r) -> hasID (Migration.ID m) (ledger db) = true) ->
  Up U execStmt env r db
  = {| err := None; self := {| migrations := GoSort.Slice byID (migrations r) |};
       store := db; trace := readEvents |}.
Proof.
  intros Hr Hall. rewrite (Up_readable execStmt env r db Hr).
  rewrite pending_spec, filter_none; [reflexivity|].
  intros m Hin. apply (Permutation_in m (Slice_Permutation byID (migrations r))) in Hin.
  now rewrite (Hall m Hin).
Qed.

(** C2: [Up] is idempotent.  After a first [Up] that succeeded, a second
    one over the same registered identifiers, the Ledger being readable,
    succeeds, leaves the store as it is and makes the three calls of the
    Ledger read only: no transaction, no Ledger INSERT, no new batch. *)
Theorem C2_up_idempotent (env1 env2 : Faults) (r r2 : Migrator.t) (db : DB U) :
  err (Up U execStmt env1 r db) = None ->
  readable env2 ->
  (forall id, In id (map Migration.ID (migrations r2)) ->
              In id (map Migration.ID (migrations r))) ->
  let res1 := Up U execStmt env1 r db in
  let res2 := Up U execStmt env2 r2 (store res1) in
  err res2 = None
  /\ store res2 = store res1
  /\ trace res2 = readEvents
  /\ Forall (fun ev => inTransaction ev = false) (trace res2)
  /\ insertedIDs (trace res2) = []
  /\ Permutation (migrations (self res1)) (migrations r).
Proof.
  intros Hok Hr Hsame. cbv zeta.
  rewrite (Up_nothing_pending env2 r2 _ Hr).
  - cbn [err store trace]. repeat split; try (repeat constructor).
    pose proof Hok as Hok'. apply Up_ok in Hok' as (Hr1 & _).
    rewrite (Up_readable execStmt env1 r db Hr1).
    destruct (pending r db); [apply Slice_Permutation|].
    destruct (executeMigrationBatch U execStmt env1 _ _ db) as [[e db'] evs'].
    apply Slice_Permutation.
  - intros m Hin. apply (in_map Migration.ID) in Hin. apply Hsame in Hin.
    apply in_map_iff in Hin as (m' & <- & Hin').
    now apply Up_ok_all_applied.
Qed.

End UpTheorems.

Section UpOrderTheorems.
Import GoStrings Migrator Observed.
Context {U : Type} (execStmt : string -> U -> option U).

Lemma NoDup_map_filter {A B} (f : A -> B) (g : A -> bool) l :
  List.NoDup (map f l) -> List.NoDup (map f (List.filter g l)).
Proof.
  induction l as [|x l IH]; simpl; intros H; [constructor|].
  apply List.NoDup_cons_iff in H as [H1 H2].
  destruct (g x); simpl; [|now apply IH].
  constructor; [|now apply IH]. intros Hin. apply H1.
  apply in_map_iff in Hin as (y & E & Hy). apply filter_In in Hy as [Hy _].
  rewrite <- E. now apply in_map.
Qed.



Lemma getNextBatchNumber_from applied acc :
  let maxBatch :=
    fold_left (fun maxBatch migration =>
                 if MigrationStatus.Batch migration >? maxBatch
                 then MigrationStatus.Batch migration else maxBatch) applied acc in
  acc <= maxBatch
  /\ (forall row, In row applied -> MigrationStatus.Batch row <= maxBatch)
  /\ (maxBatch = acc \/ exists row, In row applied /\ MigrationStatus.Batch row = maxBatch).
Proof.
  cbv zeta. revert acc. induction applied as [|a applied IH]; intros acc; simpl.
  - split; [lia|]. split; [tauto|]. now left.
  - destruct (IH (if MigrationStatus.Batch a >? acc then MigrationStatus.Batch a else acc))
      as (H1 & H2 & H3).
    rewrite Z.gtb_ltb in *. destruct (Z.ltb_spec acc (MigrationStatus.Batch a)).
    + split; [lia|]. split.
      * intros row [<-|Hin]; [lia|auto].
      * right. destruct H3 as [->|(row & Hin & E)]; eauto.
    + split; [lia|]. split.
      * intros row [<-|Hin]; [lia|auto].
      * destruct H3 as [->|(row & Hin & E)]; eauto.
Qed.

Lemma wrap_small z : - 2 ^ 63 <= z <= GoInt.maxInt -> GoInt.wrap z = z.
Proof.
  unfold GoInt.wrap, GoInt.maxInt. intros H.
  rewrite Z.mod_small; lia.
Qed.

(** The next batch number is one more than the largest in the Ledger. *)
Lemma nextBatch_spec (db : DB U) :
  (forall row, In row (ledger db) -> 0 <= MigrationStatus.Batch row < GoInt.maxInt) ->
  (forall row, In row (ledger db) -> MigrationStatus.Batch row <= nextBatch db - 1)
  /\ (ledger db = [] -> nextBatch db = 1)
  /\ (ledger db <> [] ->
      exists row, In row (ledger db) /\ nextBatch db = 1 + MigrationStatus.Batch row).
Proof.
  intros Hb. unfold nextBatch, getNextBatchNumber, GoInt.add, appliedRows.
  pose proof (Slice_Permutation byBatchID (ledger db)) as P.
  destruct (getNextBatchNumber_from (GoSort.Slice byBatchID (ledger db)) 0)
    as (H1 & H2 & H3). cbv zeta in *.
  set (maxBatch := fold_left _ _ 0) in *.
  assert (0 <= maxBatch < GoInt.maxInt) as Hm.
  { split; [exact H1|]. destruct H3 as [->|(row & Hin & <-)].
    - unfold GoInt.maxInt. lia.
    - apply Hb. now apply (Permutation_in row P). }
  rewrite wrap_small by (unfold GoInt.maxInt in *; lia).
  split; [|split].
  - intros row Hin. apply (Permutation_in row (Permutation_sym P)) in Hin.
    specialize (H2 row Hin). lia.
  - intros E. subst maxBatch. now rewrite E.
  - intros Hne. destruct H3 as [E|(row & Hin & E)].
    + destruct (ledger db) as [|row rows] eqn:L; [contradiction|].
      exists row. split; [now left|].
      assert (In row (GoSort.Slice byBatchID (row :: rows))) as Hin
          by (apply (Permutation_in row (Permutation_sym P)); now left).
      specialize (H2 row Hin). specialize (Hb row (or_introl eq_refl)). lia.
    + exists row. split; [now apply (Permutation_in row P)|lia].
Qed.


End UpOrderTheorems.

(** ** Rolling back *)

Section RollbackFacts.
Import GoStrings Migrator Observed.
Context {U : Type} (execStmt : string -> U -> option U).

Lemma insertedIDs_rollbackEvents migrationMap rows :
  insertedIDs (flat_map (rollbackEvents migrationMap) rows) = [].
Proof.
  induction rows as [|row rows IH]; simpl; [reflexivity|].
  unfold rollbackEvents at 1.
  now rewrite !insertedIDs_app, insertedIDs_exec, IH.
Qed.


(** The reverse statements of a row as the loop of [rollbackSingleMigration]
    runs them. *)
Lemma rollback_statements_spec (tx : Tx U) row migrationMap :
  match migrationMap !! MigrationStatus.ID row with
  | Some migration => execDownQueries U execStmt (Migration.Down migration) tx
  | None => (None, tx)
  end
  = let '(attempted, u, ok) :=
      runStatements U execStmt (reverseStatements migrationMap row) (data (work tx)) in
    (if ok then None else Some (ErrJoin ErrMigrationFailed ErrDriver),
     {| work := {| data := u; ledger := ledger (work tx) |};
        calls := calls tx ++ map EvExec attempted |}).
Proof.
  unfold reverseStatements.
  destruct (migrationMap !! MigrationStatus.ID row) as [m|].
  - apply execDownQueries_spec.
  - simpl. now rewrite (Tx_eta tx) at 1.
Qed.

Lemma rollbackSingleMigration_ok env (tx tx' : Tx U) row migrationMap :
  rollbackSingleMigration U execStmt env tx row migrationMap = (None, tx') ->
  ledger (work tx')
  = List.filter (fun r => negb (String.eqb (MigrationStatus.ID r) (MigrationStatus.ID row)))
                (ledger (work tx))
  /\ calls tx' = calls tx ++ rollbackEvents migrationMap row
  /\ runStatements U execStmt (reverseStatements migrationMap row) (data (work tx))
     = (reverseStatements migrationMap row, data (work tx'), true)
  /\ deleteFails env (MigrationStatus.ID row) = false.
Proof.
  unfold rollbackSingleMigration. cbv zeta. rewrite rollback_statements_spec.
  pose proof (runStatements_attempted execStmt (reverseStatements migrationMap row)
                (data (work tx))) as Hatt.
  destruct (runStatements U execStmt (reverseStatements migrationMap row) (data (work tx)))
    as [[a u] ok].
  destruct Hatt as (n & _ & Hall). destruct ok; [|discriminate].
  rewrite (Hall eq_refl). unfold deleteMigrationRecord. cbn [work ledger data calls].
  destruct (deleteFails env (MigrationStatus.ID row)); [discriminate|].
  intros [= <-]. cbn [work ledger data calls]. unfold rollbackEvents.
  rewrite <- app_assoc. repeat split.
Qed.

Lemma rollbackSingleMigration_calls env (tx : Tx U) row migrationMap :
  exists new,
    calls (rollbackSingleMigration U execStmt env tx row migrationMap).2 = calls tx ++ new
    /\ insertedIDs new = []
    /\ ((deletedIDs new = []
         /\ (rollbackSingleMigration U execStmt env tx row migrationMap).1 <> None)
        \/ deletedIDs new = [MigrationStatus.ID row]).
Proof.
  unfold rollbackSingleMigration. cbv zeta. rewrite rollback_statements_spec.
  destruct (runStatements U execStmt (reverseStatements migrationMap row) (data (work tx)))
    as [[a u] ok].
  destruct ok.
  - exists (map EvExec a ++ [EvDelete (MigrationStatus.ID row)]).
    rewrite insertedIDs_app, deletedIDs_app, insertedIDs_exec, deletedIDs_exec.
    unfold deleteMigrationRecord, logged. cbn [work ledger data calls].
    destruct (deleteFails env (MigrationStatus.ID row));
      cbn [snd calls]; rewrite <- app_assoc; repeat split; auto.
  - exists (map EvExec a). rewrite insertedIDs_exec, deletedIDs_exec.
    cbn [fst snd calls]. repeat split; auto;
      try (left; split; [reflexivity|discriminate]).
Qed.

Lemma execRollbackList_ok env rows migrationMap (tx tx' : Tx U) :
  execRollbackList U execStmt env rows migrationMap tx = (None, tx') ->
  ledger (work tx') = withoutIDs (map MigrationStatus.ID rows) (ledger (work tx))
  /\ calls tx' = calls tx ++ flat_map (rollbackEvents migrationMap) rows
  /\ runStatements U execStmt (flat_map (reverseStatements migrationMap) rows)
       (data (work tx))
     = (flat_map (reverseStatements migrationMap) rows, data (work tx'), true)
  /\ (forall row, In row rows -> deleteFails env (MigrationStatus.ID row) = false).
Proof.
  revert tx. induction rows as [|row rows IH]; intros tx.
  - intros [= <-]. simpl. rewrite withoutIDs_nil, app_nil_r. repeat split. tauto.
  - cbn [execRollbackList].
    destruct (rollbackSingleMigration U execStmt env tx row migrationMap)
      as [[e|] tx1] eqn:E1; [discriminate|].
    apply rollbackSingleMigration_ok in E1 as (L1 & C1 & R1 & D1).
    intros E2. apply IH in E2 as (L2 & C2 & R2 & D2).
    rewrite L1 in L2. rewrite C1 in C2. cbn [map flat_map].
    rewrite runStatements_app, R1, R2, L2, C2, withoutIDs_cons, <- app_assoc.
    repeat split. intros row' [<-|Hin]; auto.
Qed.

(** The Ledger DELETEs of a rollback go through the rows in the order
    given. *)
Lemma execRollbackList_calls env rows migrationMap (tx : Tx U) :
  exists new n,
    calls (execRollbackList U execStmt env rows migrationMap tx).2 = calls tx ++ new
    /\ insertedIDs new = []
    /\ deletedIDs new = map MigrationStatus.ID (firstn n rows).
Proof.
  revert tx. induction rows as [|row rows IH]; intros tx.
  - exists [], 0%nat. simpl. now rewrite app_nil_r.
  - cbn [execRollbackList].
    destruct (rollbackSingleMigration_calls env tx row migrationMap)
      as (new1 & C1 & I1 & D1).
    destruct (rollbackSingleMigration U execStmt env tx row migrationMap)
      as [[e|] tx1] eqn:E1.
    + cbn [fst snd] in *. exists new1.
      destruct D1 as [[D1 _]|D1]; [exists 0%nat|exists 1%nat]; repeat split; auto.
    + cbn [fst snd] in *. destruct D1 as [[_ D1]|D1]; [congruence|].
      destruct (IH tx1) as (new2 & n & C2 & I2 & D2).
      exists (new1 ++ new2), (S n).
      rewrite C2, C1, <- app_assoc, insertedIDs_app, deletedIDs_app, I1, I2, D1, D2.
      repeat split.
Qed.

Lemma execRollbackList_succeeds env rows migrationMap (tx : Tx U) :
  (forall row, In row rows -> deleteFails env (MigrationStatus.ID row) = false) ->
  (runStatements U execStmt (flat_map (reverseStatements migrationMap) rows)
     (data (work tx))).2 = true ->
  (execRollbackList U execStmt env rows migrationMap tx).1 = None.
Proof.
  revert tx. induction rows as [|row rows IH]; intros tx HD HR; [reflexivity|].
  cbn [execRollbackList]. unfold rollbackSingleMigration. cbv zeta.
  rewrite rollback_statements_spec.
  cbn [flat_map] in HR. rewrite runStatements_app in HR.
  destruct (runStatements U execStmt (reverseStatements migrationMap row) (data (work tx)))
    as [[a u] ok].
  destruct ok; [|discriminate].
  unfold deleteMigrationRecord. cbn [work ledger data calls].
  rewrite (HD row (or_introl eq_refl)). apply IH.
  - intros row' Hin. apply HD. now right.
  - cbn [work data].
    now destruct (runStatements U execStmt
                    (flat_map (reverseStatements migrationMap) rows) u) as [[a2 u2] ok2].
Qed.

Lemma executeRollback_failed env rows migrationMap (db : DB U) :
  (executeRollback U execStmt env rows migrationMap db).1.1 <> None ->
  (executeRollback U execStmt env rows migrationMap db).1.2 = db.
Proof.
  unfold executeRollback, BeginTx.
  destruct (beginFails env); [reflexivity|].
  destruct (execRollbackList U execStmt env rows migrationMap _) as [[e|] tx'];
    [reflexivity|].
  destruct (commitFails env); [reflexivity|]. simpl. congruence.
Qed.

Lemma executeRollback_ok env rows migrationMap (db : DB U) :
  (executeRollback U execStmt env rows migrationMap db).1.1 = None ->
  exists tx',
    execRollbackList U execStmt env rows migrationMap {| work := db; calls := [EvBegin] |}
    = (None, tx')
    /\ executeRollback U execStmt env rows migrationMap db
       = (None, work tx', calls tx' ++ [EvCommit])
    /\ beginFails env = false /\ commitFails env = false.
Proof.
  unfold executeRollback, BeginTx.
  destruct (beginFails env); [discriminate|].
  destruct (execRollbackList U execStmt env rows migrationMap _) as [[e|] tx'];
    [discriminate|].
  destruct (commitFails env); [discriminate|]. intros _. now exists tx'.
Qed.

Lemma executeRollback_calls env rows migrationMap (db : DB U) :
  exists n,
    insertedIDs (executeRollback U execStmt env rows migrationMap db).2 = []
    /\ deletedIDs (executeRollback U execStmt env rows migrationMap db).2
       = map MigrationStatus.ID (firstn n rows).
Proof.
  unfold executeRollback, BeginTx.
  destruct (beginFails env).
  - exists 0%nat. now simpl.
  - destruct (execRollbackList_calls env rows migrationMap {| work := db; calls := [EvBegin] |})
      as (new & n & C & I & D).
    exists n.
    destruct (execRollbackList U execStmt env rows migrationMap _) as [[e|] tx'];
      cbn [fst snd calls] in *; [|destruct (commitFails env)]; cbn [fst snd];
      rewrite C, !insertedIDs_app, !deletedIDs_app, D, I;
      simpl; rewrite !app_nil_r; repeat split; auto.
Qed.

Lemma executeRollback_succeeds env rows migrationMap (db : DB U) :
  beginFails env = false -> commitFails env = false ->
  (forall row, In row rows -> deleteFails env (MigrationStatus.ID row) = false) ->
  (runStatements U execStmt (flat_map (reverseStatements migrationMap) rows) (data db)).2
  = true ->
  (executeRollback U execStmt env rows migrationMap db).1.1 = None.
Proof.
  intros HB HC HD HR. unfold executeRollback, BeginTx. rewrite HB.
  pose proof (execRollbackList_succeeds env rows migrationMap
                {| work := db; calls := [EvBegin] |} HD HR) as S.
  destruct (execRollbackList U execStmt env rows migrationMap _) as [[e|] tx'];
    [discriminate|].
  now rewrite HC.
Qed.

Lemma appliedRows_nil (db : DB U) : appliedRows db = [] <-> ledger db = [].
Proof.
  unfold appliedRows. pose proof (Slice_length byBatchID (ledger db)) as L.
  split; intros E.
  - rewrite E in L. destruct (ledger db); [reflexivity|discriminate].
  - now rewrite E.
Qed.

Lemma Down_readable env steps r (db : DB U) :
  readable env ->
  Down U execStmt env steps r db =
  match ledger db with
  | [] => {| err := Some ErrNoMigrationsToRollback; self := r; store := db;
             trace := readEvents |}
  | _ =>
      let '(e, db', evs') :=
        executeRollback U execStmt env (selected steps db)
                        (buildMigrationMap (migrations r)) db in
      {| err := e; self := r; store := db'; trace := readEvents ++ evs' |}
  end.
Proof.
  intros Hr. unfold Down. rewrite (getAppliedMigrations_readable env db Hr).
  fold (selected steps db).
  destruct (GoInt.len (appliedRows db) =? 0) eqn:L.
  - apply len_zero, appliedRows_nil in L. now rewrite L.
  - destruct (ledger db) eqn:E; [|reflexivity].
    apply appliedRows_nil in E. apply len_zero in E. congruence.
Qed.

Lemma Down_unreadable env steps r (db : DB U) :
  ~ readable env ->
  exists e evs,
    Down U execStmt env steps r db
    = {| err := Some (ErrJoin ErrFailedToGetAppliedMigrations e);
         self := r; store := db; trace := evs |}
    /\ Forall (fun ev => inTransaction ev = false) evs.
Proof.
  intros Hr. unfold Down.
  destruct (getAppliedMigrations U env db) as [[e|applied] evs] eqn:E.
  - exists e, evs. split; [reflexivity|].
    now apply getAppliedMigrations_failed in E.
  - exfalso. apply Hr. revert E.
    unfold getAppliedMigrations, createMigrationTable, readable.
    destruct (tableFails env), (indexFails env), (queryFails env);
      try discriminate. now intros _.
Qed.

(** How many rows [Down] takes. *)
Lemma buildRollbackList_spec applied steps :
  let n := length applied in
  let k := if (steps <=? 0) || (steps >? Z.of_nat n) then n else Z.to_nat steps in
  buildRollbackList applied steps = firstn k (GoSort.Slice byBatchIDDesc applied)
  /\ length (buildRollbackList applied steps) = k.
Proof.
  cbv zeta. unfold buildRollbackList, GoInt.len.
  rewrite (Slice_length byBatchIDDesc applied).
  destruct ((steps <=? 0) || (steps >? Z.of_nat (length applied))) eqn:E.
  - rewrite Nat2Z.id. split; [reflexivity|].
    rewrite length_firstn, (Slice_length byBatchIDDesc applied). lia.
  - split; [reflexivity|].
    apply orb_false_iff in E as [E1 E2]. rewrite Z.gtb_ltb in E2.
    apply Z.leb_gt in E1. apply Z.ltb_ge in E2.
    rewrite length_firstn, (Slice_length byBatchIDDesc applied). lia.
Qed.

End RollbackFacts.

Section DownTheorems.
Import GoStrings Migrator Observed.
Context {U : Type} (execStmt : string -> U -> option U).

(** What a successful [Down] has done. *)
Lemma Down_ok env steps r (db : DB U) :
  err (Down U execStmt env steps r db) = None ->
  readable env /\ ledger db <> []
  /\ trace (Down U execStmt env steps r db)
     = readEvents
       ++ EvBegin
          :: flat_map (rollbackEvents (buildMigrationMap (migrations r))) (selected steps db)
          ++ [EvCommit]
  /\ ledger (store (Down U execStmt env steps r db))
     = withoutIDs (map MigrationStatus.ID (selected steps db)) (ledger db)
  /\ runStatements U execStmt
       (flat_map (reverseStatements (buildMigrationMap (migrations r))) (selected steps db))
       (data db)
     = (flat_map (reverseStatements (buildMigrationMap (migrations r))) (selected steps db),
        data (store (Down U execStmt env steps r db)), true).
Proof.
  destruct (readable_dec env) as [Hr|Hr].
  - rewrite (Down_readable execStmt env steps r db Hr).
    destruct (ledger db) as [|row rows] eqn:E; [discriminate|]. rewrite <- E.
    destruct (executeRollback U execStmt env (selected steps db)
                (buildMigrationMap (migrations r)) db) as [[e db'] evs'] eqn:B.
    cbn [err store trace]. intros ->.
    destruct (executeRollback_ok execStmt env (selected steps db)
                (buildMigrationMap (migrations r)) db) as (tx' & X & B' & _);
      [now rewrite B|].
    rewrite B in B'. injection B' as -> ->.
    apply execRollbackList_ok in X as (L & C & R & _). cbn [work ledger data calls] in *.
    rewrite C. split; [exact Hr|]. split; [congruence|]. repeat split; assumption.
  - destruct (Down_unreadable execStmt env steps r db Hr) as (e & evs & -> & _).
    discriminate.
Qed.


(** C6: on an empty Ledger [Down] fails whatever [steps] is, with
    [ErrNoMigrationsToRollback] as soon as the Ledger could be read; it
    makes no call inside a transaction and leaves the store and the
    registered candidates as they were. *)
Theorem C6_down_on_empty_ledger (env : Faults) (steps : Z) (r : Migrator.t) (db : DB U) :
  ledger db = [] ->
  let res := Down U execStmt env steps r db in
  err res <> None
  /\ (readable env -> err res = Some ErrNoMigrationsToRollback /\ trace res = readEvents)
  /\ Forall (fun ev => inTransaction ev = false) (trace res)
  /\ store res = db
  /\ self res = r.
Proof.
  intros E. cbv zeta. destruct (readable_dec env) as [Hr|Hr].
  - rewrite (Down_readable execStmt env steps r db Hr), E. cbn [err trace store self].
    repeat split; try discriminate; repeat constructor.
  - destruct (Down_unreadable execStmt env steps r db Hr) as (e & evs & -> & F).
    cbn [err trace store self]. repeat split; try discriminate; try assumption;
      contradiction.
Qed.

(** C7: a selected Ledger row whose identifier is not registered costs no
    statement: rolling it back is the Ledger DELETE alone, and fails only if
    that DELETE fails.  A [Down] that succeeds has made, for each selected
    row in turn, the reverse statements of its registered migration, none
    for a row without one, then its DELETE; the selected rows are gone from
    the Ledger.  [Down] succeeds whenever the store refuses nothing, however
    many selected rows are not registered. *)
Theorem C7_unregistered_row_is_deleted (env : Faults) (steps : Z) (r : Migrator.t)
    (db : DB U) :
  let res := Down U execStmt env steps r db in
  let migrationMap := buildMigrationMap (migrations r) in
  (forall row,
      (forall m, In m (migrations r) -> Migration.ID m <> MigrationStatus.ID row) ->
      rollbackEvents migrationMap row = [EvDelete (MigrationStatus.ID row)]
      /\ forall tx : Tx U,
          rollbackSingleMigration U execStmt env tx row migrationMap
          = deleteMigrationRecord U env (MigrationStatus.ID row) tx
            \/ (deleteFails env (MigrationStatus.ID row) = true
                /\ rollbackSingleMigration U execStmt env tx row migrationMap
                   = (Some (ErrJoin ErrMigrationFailed ErrDriver),
                      logged U (EvDelete (MigrationStatus.ID row)) tx)))
  /\ (err res = None ->
      trace res
      = readEvents
        ++ EvBegin :: flat_map (rollbackEvents migrationMap) (selected steps db)
        ++ [EvCommit]
      /\ ledger (store res)
         = withoutIDs (map MigrationStatus.ID (selected steps db)) (ledger db))
  /\ (readable env -> ledger db <> [] ->
      beginFails env = false -> commitFails env = false ->
      (forall row, In row (selected steps db) ->
                   deleteFails env (MigrationStatus.ID row) = false) ->
      (runStatements U execStmt
         (flat_map (reverseStatements migrationMap) (selected steps db)) (data db)).2 = true ->
      err res = None).
Proof.
  cbv zeta. split; [|split].
  - intros row Hrow. apply buildMigrationMap_None in Hrow.
    unfold rollbackEvents, reverseStatements, rollbackSingleMigration. rewrite Hrow.
    split; [reflexivity|]. intros tx. cbv zeta. unfold deleteMigrationRecord.
    destruct (deleteFails env (MigrationStatus.ID row)); [right|left]; now split.
  - intros H. apply Down_ok in H as (_ & _ & T & L & _). now split.
  - intros Hr Hne HB HC HD HR.
    rewrite (Down_readable execStmt env steps r db Hr).
    destruct (ledger db) as [|row rows] eqn:E; [contradiction|].
    pose proof (executeRollback_succeeds execStmt env (selected steps db)
                  (buildMigrationMap (migrations r)) db HB HC HD HR) as S.
    now destruct (executeRollback U execStmt env (selected steps db)
                    (buildMigrationMap (migrations r)) db) as [[e db'] evs'].
Qed.

End DownTheorems.

(** ** The engine run on the small store *)

Section Runs.
Import GoStrings Migrator Observed Example.

(** Scenario A: both migrations are applied in batch 1, identifier 1 first
    though it was registered second; the blank statement is skipped. *)
Example up_applies_both :
  Up _ run healthy registered empty
  = {| err := None; self := {| migrations := [m1; m2] |}; store := applied;
       trace := readEvents
                ++ [EvBegin; EvExec "CREATE TABLE t(id INT)"; EvInsert "1" "create t" 1;
                    EvExec "ALTER TABLE t ADD COLUMN name TEXT"; EvInsert "2" "add name" 1;
                    EvCommit] |}.
Proof. vm_compute. reflexivity. Qed.

(** A batch whose last migration fails leaves nothing behind. *)
Example up_failing_batch :
  let res := Up _ run healthy (Register [bad] registered) empty in
  err res = Some (ErrJoin ErrMigrationFailed (ErrJoin ErrFailedToExecuteQuery ErrDriver))
  /\ store res = empty
  /\ executed (trace res)
     = ["CREATE TABLE t(id INT)"; "ALTER TABLE t ADD COLUMN name TEXT"; "FAIL"].
Proof. vm_compute. repeat split. Qed.

(** [Down(1)] reverses identifier 2 only, skipping the comment entry. *)
Example down_one_step :
  let res := Down _ run healthy 1 registered applied in
  err res = None
  /\ map MigrationStatus.ID (ledger (store res)) = ["1"]
  /\ executed (trace res) = ["ALTER TABLE t DROP COLUMN name"]
  /\ deletedIDs (trace res) = ["2"].
Proof. vm_compute. repeat split. Qed.

(** With nothing registered, [Down] deletes the rows and runs no statement. *)
Example down_unregistered :
  let res := Down _ run healthy 0 New applied in
  err res = None /\ ledger (store res) = [] /\ data (store res) = data applied
  /\ trace res = readEvents ++ [EvBegin; EvDelete "2"; EvDelete "1"; EvCommit].
Proof. vm_compute. repeat split. Qed.

Lemma C2_up_idempotent_witness :
  err (Up _ run healthy registered empty) = None
  /\ err (Up _ run healthy registered (store (Up _ run healthy registered empty))) = None
  /\ trace (Up _ run healthy registered (store (Up _ run healthy registered empty)))
     = readEvents.
Proof.
  assert (err (Up _ run healthy registered empty) = None) as H1
      by (vm_compute; reflexivity).
  assert (readable healthy) as H2 by (repeat split).
  assert (forall id, In id (map Migration.ID (migrations registered)) ->
                     In id (map Migration.ID (migrations registered))) as H3
      by (intros id H; exact H).
  destruct (C2_up_idempotent run healthy healthy registered registered empty H1 H2 H3)
    as (E & _ & T & _).
  split; [exact H1|]. split; [exact E|exact T].
Defined.



Lemma C6_down_on_empty_ledger_witness :
  err (Down _ run healthy 3 registered empty) <> None
  /\ store (Down _ run healthy 3 registered empty) = empty.
Proof.
  assert (ledger empty = []) as H by reflexivity.
  destruct (C6_down_on_empty_ledger run healthy 3 registered empty H)
    as (E & _ & _ & S & _).
  split; [exact E|exact S].
Defined.

End Runs.

(** ** Chains of builder calls *)

Section ChainFacts.
Import GoStrings Builder.

(** What a call adds does not depend on the builder it is made on. *)
Lemma perform_adds c b :
  match perform c b with
  | Returned b' | Panicked b' =>
      upQueries (migration b') = upQueries (migration b) ++ forwardOf c
      /\ downQueries (migration b') = reverseOf c ++ downQueries (migration b)
      /\ id (migration b') = id (migration b)
      /\ description (migration b') = description (migration b)
  end.
Proof.
  destruct c; unfold forwardOf, reverseOf; simpl;
    rewrite ?app_nil_r; try (repeat split; fail).
  unfold AddColumn. destruct (Fields columnDef); simpl; repeat split.
Qed.



(** X2: A chain that returns has added the forward statements of its calls in
    call order and their reverse statements in the opposite order; the
    identifier and the description are those given to [CreateMigration]. *)
Theorem chain_orders_statements (cs : list call) (id description : string)
    (b' : MigrationBuilder) :
  performAll cs (CreateMigration id description) = Returned b' ->
  Migration.Up (Build b') = flat_map forwardOf cs
  /\ Migration.Down (Build b') = flat_map reverseOf (rev cs)
  /\ Migration.ID (Build b') = id
  /\ Migration.Description (Build b') = description.
Proof.
  assert (forall cs b b',
             performAll cs b = Returned b' ->
             upQueries (migration b') = upQueries (migration b) ++ flat_map forwardOf cs
             /\ downQueries (migration b')
                = flat_map reverseOf (rev cs) ++ downQueries (migration b)
             /\ Builder.id (migration b') = Builder.id (migration b)
             /\ Builder.description (migration b') = Builder.description (migration b)) as G.
  { clear. induction cs as [|c cs IH]; intros b b' H; simpl in H.
    - injection H as <-. simpl. now rewrite app_nil_r.
    - pose proof (perform_adds c b) as P.
      destruct (perform c b) as [b1|b1]; [|discriminate].
      destruct P as (Pu & Pd & Pi & Pn).
      destruct (IH _ _ H) as (Hu & Hd & Hi & Hn).
      simpl. rewrite Hu, Hd, Hi, Hn, Pu, Pd, Pi, Pn.
      rewrite flat_map_app. simpl. rewrite app_nil_r, <- !app_assoc. auto. }
  intros H. destruct (G _ _ _ H) as (Hu & Hd & Hi & Hn). simpl in *.
  rewrite app_nil_r in Hd. auto.
Qed.

Lemma chain_orders_statements_witness :
  exists b',
    performAll [CallCreateTable "users" ["id INT"]; CallRawUp "SELECT 1;";
                CallDropIndex "idx"]
               (CreateMigration "1" "users") = Returned b'
    /\ Migration.Down (Build b')
       = ["-- Cannot restore dropped index idx without definition";
          "DROP TABLE IF EXISTS users;"].
Proof.
  eexists. split; [reflexivity|].
  exact (proj1 (proj2 (chain_orders_statements
                         [CallCreateTable "users" ["id INT"]; CallRawUp "SELECT 1;";
                          CallDropIndex "idx"] "1" "users" _ eq_refl))).
Defined.


(** X4: The statements the structural calls write: the forward statement is
    always sent to the store by [Up]; the reverse statement is sent by
    [Down] unless it is the comment placeholder of an irreversible call. *)
Theorem generated_statements_kept (c : call) (b b' : MigrationBuilder) :
  perform c b = Returned b' -> raw c = false ->
  Migrator.forwardKept (upQueries (migration b'))
  = Migrator.forwardKept (upQueries (migration b)) ++ forwardOf c
  /\ Migrator.reverseKept (downQueries (migration b'))
     = (if irreversible c then [] else reverseOf c)
       ++ Migrator.reverseKept (downQueries (migration b))
  /\ length (forwardOf c) = 1%nat /\ length (reverseOf c) = 1%nat.
Proof.
  intros H R. pose proof (perform_adds c b) as P. rewrite H in P.
  destruct P as (-> & -> & _).
  unfold Migrator.forwardKept, Migrator.reverseKept. rewrite !List.filter_app.
  destruct c; try discriminate R; unfold forwardOf, reverseOf;
    try (split; [f_equal|split; [f_equal|split]]; reflexivity).
  simpl in H |- *. unfold AddColumn in H |- *.
  destruct (Fields columnDef); [discriminate|].
  split; [f_equal|split; [f_equal|split]]; reflexivity.
Qed.

Lemma generated_statements_kept_witness :
  exists b',
    perform (CallDropTable "users") (CreateMigration "2" "drop users") = Returned b'
    /\ Migrator.forwardKept (upQueries (migration b')) = ["DROP TABLE IF EXISTS users;"]
    /\ Migrator.reverseKept (downQueries (migration b')) = [].
Proof.
  eexists. split; [reflexivity|].
  destruct (generated_statements_kept (CallDropTable "users")
              (CreateMigration "2" "drop users") _ eq_refl eq_refl) as (Hf & Hr & _).
  split; [exact Hf|exact Hr].
Defined.

End ChainFacts.

(** ** Reading the Ledger *)

Section ReadingFacts.
Import GoStrings Migrator Observed.
Context {U : Type} (execStmt : string -> U -> option U).

(** X5: [Status] returns the Ledger rows ascending by batch and, within a
    batch, by identifier, after the bootstrap and the read and nothing
    else. *)
Theorem Status_returns_sorted_ledger (env : Faults) (db : DB U) :
  readable env ->
  exists rows,
    Status U env db = (inr rows, readEvents)
    /\ Permutation rows (ledger db)
    /\ StronglySorted ascByBatchID rows.
Proof.
  intros Hr. exists (appliedRows db). unfold Status.
  rewrite (getAppliedMigrations_readable env db Hr).
  split; [reflexivity|]. split.
  - apply Slice_Permutation.
  - apply sorted_byBatchID.
Qed.

(** X6: When the bootstrap or the read is refused, [Status] returns the error
    of the first refused call, [Up] and [Down] return it joined to
    [ErrFailedToGetAppliedMigrations]; no later call is made and neither the
    store nor the registered candidates change. *)
Theorem unreadable_store_is_reported (env : Faults) (steps : Z) (r : Migrator.t)
    (db : DB U) :
  ~ readable env ->
  let e := if tableFails env
           then ErrJoin ErrFailedToCreateSchemaMigrationsTable ErrDriver
           else if indexFails env
                then ErrJoin ErrFailedToCreateSchemaMigrationsIndex ErrDriver
                else ErrDriver in
  let made := if tableFails env then 1%nat else if indexFails env then 2%nat else 3%nat in
  Status U env db = (inl e, firstn made readEvents)
  /\ Up U execStmt env r db
     = {| err := Some (ErrJoin ErrFailedToGetAppliedMigrations e); self := r;
          store := db; trace := firstn made readEvents |}
  /\ Down U execStmt env steps r db
     = {| err := Some (ErrJoin ErrFailedToGetAppliedMigrations e); self := r;
          store := db; trace := firstn made readEvents |}.
Proof.
  unfold readable, Status, Up, Down, getAppliedMigrations, createMigrationTable.
  destruct (tableFails env), (indexFails env), (queryFails env); simpl; intros H;
    try (exfalso; apply H; auto; fail); repeat split.
Qed.

End ReadingFacts.

Section ReadingRuns.
Import Migrator Observed Example.

Lemma Status_returns_sorted_ledger_witness :
  exists rows,
    Status _ healthy applied = (inr rows, readEvents)
    /\ Permutation rows (ledger applied)
    /\ StronglySorted ascByBatchID rows.
Proof.
  apply (Status_returns_sorted_ledger healthy applied). repeat split.
Defined.

Lemma unreadable_store_is_reported_witness :
  err (Up _ run tableRefused registered empty)
  = Some (ErrJoin ErrFailedToGetAppliedMigrations
            (ErrJoin ErrFailedToCreateSchemaMigrationsTable ErrDriver))
  /\ trace (Down _ run tableRefused 1 registered applied)
     = [EvExecDB migrationTableSQL].
Proof.
  assert (~ readable tableRefused) as H by (intros (H & _); discriminate H).
  split.
  - destruct (unreadable_store_is_reported run tableRefused 1 registered empty H)
      as (_ & -> & _). reflexivity.
  - destruct (unreadable_store_is_reported run tableRefused 1 registered applied H)
      as (_ & _ & ->). reflexivity.
Defined.

End ReadingRuns.

(** ** The migration map *)

Section MapFacts.
Import GoStrings Migrator Observed.

Lemma find_absent {A} (f : A -> bool) l :
  (forall x, In x l -> f x = false) -> find f l = None.
Proof.
  induction l as [|x l IH]; simpl; intros H; [reflexivity|].
  rewrite (H x) by now left. apply IH. intros y Hy. apply H. now right.
Qed.

(** X7: The migration map has an entry exactly for the registered identifiers,
    and for an identifier registered more than once the entry is the
    candidate registered last. *)
Theorem migration_map_keeps_last (migrations : list Migration.t) :
  (forall id, buildMigrationMap migrations !! id = None
              <-> ~ In id (map Migration.ID migrations))
  /\ (forall before m after,
         migrations = before ++ m :: after ->
         ~ In (Migration.ID m) (map Migration.ID after) ->
         buildMigrationMap migrations !! Migration.ID m = Some m).
Proof.
  split.
  - intros id. rewrite buildMigrationMap_None, in_map_iff. split.
    + intros H (m & E & Hin). exact (H m Hin E).
    + intros H m Hin E. apply H. exists m. auto.
  - intros before m after -> Hnot.
    rewrite buildMigrationMap_lookup, rev_app_distr. simpl rev.
    rewrite <- app_assoc, find_app'.
    rewrite find_absent.
    + simpl. now rewrite String.eqb_refl.
    + intros x Hx. apply in_rev in Hx.
      destruct (String.eqb (Migration.ID x) (Migration.ID m)) eqn:E; [|reflexivity].
      apply String.eqb_eq in E. exfalso. apply Hnot. rewrite <- E.
      now apply in_map.
Qed.

End MapFacts.

(** ** Outcomes of Up and Down *)

Section OutcomeFacts.
Import GoStrings Migrator Observed.
Context {U : Type} (execStmt : string -> U -> option U).

Lemma Up_failed env r (db : DB U) :
  err (Up U execStmt env r db) <> None -> store (Up U execStmt env r db) = db.
Proof.
  destruct (readable_dec env) as [Hr|Hr].
  - rewrite (Up_readable execStmt env r db Hr).
    destruct (pending r db) as [|m ms]; [reflexivity|].
    pose proof (executeMigrationBatch_failed execStmt env (m :: ms) (nextBatch db) db) as F.
    destruct (executeMigrationBatch U execStmt env (m :: ms) (nextBatch db) db)
      as [[e db'] evs]. simpl in *. exact F.
  - destruct (Up_unreadable execStmt env r db Hr) as (e & evs & -> & _). reflexivity.
Qed.

Lemma Down_failed env steps r (db : DB U) :
  err (Down U execStmt env steps r db) <> None ->
  store (Down U execStmt env steps r db) = db.
Proof.
  destruct (readable_dec env) as [Hr|Hr].
  - rewrite (Down_readable execStmt env steps r db Hr).
    destruct (ledger db) as [|row rows]; [reflexivity|].
    pose proof (executeRollback_failed execStmt env (selected steps db)
                  (buildMigrationMap (migrations r)) db) as F.
    destruct (executeRollback U execStmt env (selected steps db)
                (buildMigrationMap (migrations r)) db) as [[e db'] evs].
    simpl in *. exact F.
  - destruct (Down_unreadable execStmt env steps r db Hr) as (e & evs & -> & _).
    reflexivity.
Qed.

Lemma Down_self env steps r (db : DB U) : self (Down U execStmt env steps r db) = r.
Proof.
  unfold Down. destruct (getAppliedMigrations U env db) as [[e|applied] evs];
    [reflexivity|].
  destruct (GoInt.len applied =? 0); [reflexivity|].
  destruct (executeRollback U execStmt env _ _ db) as [[e db'] evs']. reflexivity.
Qed.

(** X8: [Down] is atomic: when it returns an error, whatever was rolled back
    before the failure is undone, and the registered candidates are as
    before. *)
Theorem Down_failure_changes_nothing (env : Faults) (steps : Z) (r : Migrator.t)
    (db : DB U) :
  err (Down U execStmt env steps r db) <> None ->
  store (Down U execStmt env steps r db) = db
  /\ self (Down U execStmt env steps r db) = r.
Proof.
  intros H. split; [now apply Down_failed|apply Down_self].
Qed.

(** X9: Two candidates left to apply that carry the same identifier make [Up]
    fail: the second INSERT meets the primary key of the Ledger, and the
    batch is rolled back. *)
Theorem Up_rejects_duplicate_identifiers (env : Faults) (r : Migrator.t) (db : DB U)
    (before between after : list Migration.t) (a b : Migration.t) :
  pending r db = before ++ a :: between ++ b :: after ->
  Migration.ID a = Migration.ID b ->
  err (Up U execStmt env r db) <> None
  /\ store (Up U execStmt env r db) = db.
Proof.
  intros E I.
  assert (err (Up U execStmt env r db) <> None) as F.
  { intros H. apply Up_ok in H as (_ & _ & _ & _ & ND).
    rewrite E, map_app in ND. simpl in ND.
    apply List.NoDup_remove_2 in ND. apply ND.
    rewrite in_app_iff, map_app. right. rewrite in_app_iff. right.
    simpl. now left. }
  split; [exact F|now apply Up_failed].
Qed.

(** X10: [Up] sorts the registered candidates themselves: after a call that
    could read the Ledger they are in ascending order of identifier, the
    same candidates as before; a call that could not read it leaves them as
    they were. *)
Theorem Up_sorts_registered (env : Faults) (r : Migrator.t) (db : DB U) :
  let res := Up U execStmt env r db in
  (readable env ->
   StronglySorted ascByID (migrations (self res))
   /\ Permutation (migrations (self res)) (migrations r))
  /\ (~ readable env -> self res = r).
Proof.
  split.
  - intros Hr. rewrite (Up_readable execStmt env r db Hr).
    assert (StronglySorted ascByID (GoSort.Slice byID (migrations r))
            /\ Permutation (GoSort.Slice byID (migrations r)) (migrations r)) as G
        by (split; [apply sorted_byID|apply Slice_Permutation]).
    destruct (pending r db); [exact G|].
    destruct (executeMigrationBatch U execStmt env _ _ db) as [[e db'] evs].
    exact G.
  - intros Hr. destruct (Up_unreadable execStmt env r db Hr) as (e & evs & -> & _).
    reflexivity.
Qed.

Lemma In_pending r (db : DB U) m :
  In m (pending r db)
  <-> In m (migrations r) /\ hasID (Migration.ID m) (ledger db) = false.
Proof.
  split.
  - intros H. apply (Permutation_in _ (pending_Permutation r db)) in H.
    apply List.filter_In in H as [H1 H2]. apply negb_true_iff in H2. auto.
  - intros [H1 H2].
    apply (Permutation_in _ (Permutation_sym (pending_Permutation r db))).
    apply List.filter_In. split; [exact H1|]. now apply negb_true_iff.
Qed.

Lemma NoDup_pending r (db : DB U) :
  List.NoDup (map Migration.ID (migrations r)) ->
  List.NoDup (map Migration.ID (pending r db)).
Proof.
  intros ND. rewrite pending_spec. apply NoDup_map_filter.
  apply (Permutation_NoDup (l := map Migration.ID (migrations r))); [|exact ND].
  apply Permutation_map. symmetry. apply Slice_Permutation.
Qed.

(** X11: [Up] returns nil whenever nothing stands in its way: the store answers
    every call of the engine, the registered identifiers are distinct, and
    the forward statements left to run all go through. *)
Theorem Up_succeeds (env : Faults) (r : Migrator.t) (db : DB U) :
  readable env -> beginFails env = false -> commitFails env = false ->
  (forall m, In m (migrations r) -> insertFails env (Migration.ID m) = false) ->
  List.NoDup (map Migration.ID (migrations r)) ->
  (runStatements U execStmt (forwardStatements (pending r db)) (data db)).2 = true ->
  err (Up U execStmt env r db) = None.
Proof.
  intros Hr Hb Hc Hi ND Hrun.
  rewrite (Up_readable execStmt env r db Hr).
  destruct (pending r db) as [|m ms] eqn:E; [reflexivity|]. rewrite <- E.
  unfold executeMigrationBatch, BeginTx. rewrite Hb.
  pose proof (execBatch_succeeds execStmt env (pending r db) (nextBatch db)
                {| work := db; calls := [EvBegin] |}) as S.
  destruct (execBatch U execStmt env (pending r db) (nextBatch db) _) as [e tx'].
  simpl in S. rewrite S.
  - rewrite Hc. reflexivity.
  - intros x Hx. apply In_pending in Hx. apply Hi, Hx.
  - intros x Hx. apply In_pending in Hx. apply Hx.
  - now apply NoDup_pending.
  - rewrite E. exact Hrun.
Qed.

(** X12: When the store refuses to open a transaction, [Up] with something to
    apply and [Down] with something to roll back return
    [ErrFailedToBeginTransaction]; no statement is sent and the store is as
    before. *)
Theorem refused_transaction (env : Faults) (steps : Z) (r : Migrator.t) (db : DB U) :
  readable env -> beginFails env = true ->
  (pending r db <> [] ->
   Up U execStmt env r db
   = {| err := Some (ErrJoin ErrFailedToBeginTransaction ErrDriver);
        self := {| migrations := GoSort.Slice byID (migrations r) |};
        store := db; trace := readEvents ++ [EvBegin] |})
  /\ (ledger db <> [] ->
      Down U execStmt env steps r db
      = {| err := Some (ErrJoin ErrFailedToBeginTransaction ErrDriver);
           self := r; store := db; trace := readEvents ++ [EvBegin] |}).
Proof.
  intros Hr Hb. split; intros Hne.
  - rewrite (Up_readable execStmt env r db Hr).
    destruct (pending r db); [contradiction|].
    unfold executeMigrationBatch, BeginTx. rewrite Hb. reflexivity.
  - rewrite (Down_readable execStmt env steps r db Hr).
    destruct (ledger db); [contradiction|].
    unfold executeRollback, BeginTx. rewrite Hb. reflexivity.
Qed.

Lemma untransacted_inserts_deletes evs :
  Forall (fun ev => inTransaction ev = false) evs ->
  deletedIDs evs = [] /\ insertedIDs evs = [].
Proof.
  induction 1 as [|ev evs H _ [IHd IHi]]; [split; reflexivity|].
  destruct ev; try discriminate H; simpl; auto.
Qed.

Lemma Up_deletes_nothing env r (db : DB U) :
  deletedIDs (trace (Up U execStmt env r db)) = [].
Proof.
  destruct (readable_dec env) as [Hr|Hr].
  - rewrite (Up_readable execStmt env r db Hr).
    destruct (pending r db) as [|m ms]; [reflexivity|].
    destruct (executeMigrationBatch_calls execStmt env (m :: ms) (nextBatch db) db)
      as (n & _ & D & _).
    destruct (executeMigrationBatch U execStmt env (m :: ms) (nextBatch db) db)
      as [[e db'] evs]. simpl in D. cbn [trace]. rewrite deletedIDs_app, D. reflexivity.
  - destruct (Up_unreadable execStmt env r db Hr) as (e & evs & -> & F).
    simpl. apply untransacted_inserts_deletes, F.
Qed.

Lemma Down_inserts_nothing env steps r (db : DB U) :
  insertedIDs (trace (Down U execStmt env steps r db)) = [].
Proof.
  destruct (readable_dec env) as [Hr|Hr].
  - rewrite (Down_readable execStmt env steps r db Hr).
    destruct (ledger db) as [|row rows]; [reflexivity|].
    destruct (executeRollback_calls execStmt env (selected steps db)
                (buildMigrationMap (migrations r)) db) as (n & I & _).
    destruct (executeRollback U execStmt env (selected steps db)
                (buildMigrationMap (migrations r)) db) as [[e db'] evs].
    simpl in I. cbn [trace]. rewrite insertedIDs_app, I. reflexivity.
  - destruct (Down_unreadable execStmt env steps r db Hr) as (e & evs & -> & F).
    simpl. apply untransacted_inserts_deletes, F.
Qed.

(** X13: [Up] never deletes a Ledger row and [Down] never inserts one. *)
Theorem Up_never_deletes_Down_never_inserts (env : Faults) (steps : Z)
    (r : Migrator.t) (db : DB U) :
  deletedIDs (trace (Up U execStmt env r db)) = []
  /\ insertedIDs (trace (Down U execStmt env steps r db)) = [].
Proof.
  split; [apply Up_deletes_nothing|apply Down_inserts_nothing].
Qed.

End OutcomeFacts.

Section OutcomeRuns.
Import Migrator Observed Example.

Lemma Down_failure_changes_nothing_witness :
  store (Down _ run commitRefused 1 registered applied) = applied.
Proof.
  assert (err (Down _ run commitRefused 1 registered applied) <> None) as H
      by (vm_compute; discriminate).
  exact (proj1 (Down_failure_changes_nothing run commitRefused 1 registered applied H)).
Defined.

Lemma Up_rejects_duplicate_identifiers_witness :
  err (Up _ run healthy twice empty) <> None
  /\ store (Up _ run healthy twice empty) = empty.
Proof.
  apply (Up_rejects_duplicate_identifiers run healthy twice empty [] [] [] m1 m1);
    vm_compute; reflexivity.
Defined.

Lemma Up_succeeds_witness : err (Up _ run healthy registered empty) = None.
Proof.
  apply (Up_succeeds run healthy registered empty); try reflexivity.
  - repeat split.
  - vm_compute. repeat constructor; simpl; intuition discriminate.
Defined.

Lemma refused_transaction_witness :
  err (Up _ run beginRefused registered empty)
  = Some (ErrJoin ErrFailedToBeginTransaction ErrDriver)
  /\ store (Down _ run beginRefused 0 registered applied) = applied.
Proof.
  assert (readable beginRefused) as Hr by (repeat split).
  assert (beginFails beginRefused = true) as Hb by reflexivity.
  split.
  - rewrite (proj1 (refused_transaction run beginRefused 0 registered empty Hr Hb));
      [reflexivity|vm_compute; discriminate].
  - rewrite (proj2 (refused_transaction run beginRefused 0 registered applied Hr Hb));
      [reflexivity|simpl; discriminate].
Defined.

End OutcomeRuns.

(** ** Inside the transaction *)

Section TransactionFacts.
Import GoStrings Migrator Observed.
Context {U : Type} (execStmt : string -> U -> option U).

Lemma executed_app evs evs' : executed (evs ++ evs') = executed evs ++ executed evs'.
Proof. apply flat_map_app. Qed.

Lemma executed_exec qs : executed (map EvExec qs) = qs.
Proof. induction qs as [|q qs IH]; simpl; congruence. Qed.

Lemma statements_exec qs : Forall (fun ev => isStatement ev = true) (map EvExec qs).
Proof. induction qs; simpl; constructor; auto. Qed.

Lemma firstn_length_app {A} (l l' : list A) n :
  firstn (length l + n) (l ++ l') = l ++ firstn n l'.
Proof. induction l; simpl; congruence. Qed.

(** The loop of [executeMigrationBatch], whatever its outcome: the calls it
    makes, the statements it has sent, and what its error tells. *)
Lemma execBatch_cases env ms batch (tx tx' : Tx U) e attempted u ok :
  execBatch U execStmt env ms batch tx = (e, tx') ->
  runStatements U execStmt (forwardStatements ms) (data (work tx)) = (attempted, u, ok) ->
  exists new n,
    calls tx' = calls tx ++ new
    /\ Forall (fun ev => isStatement ev = true) new
    /\ executed new = firstn n attempted
    /\ match e with
       | None => True
       | Some e =>
           (e = ErrJoin ErrMigrationFailed (ErrJoin ErrFailedToExecuteQuery ErrDriver)
            /\ ok = false /\ executed new = attempted)
           \/ (e = ErrJoin ErrMigrationFailed ErrDriver
               /\ exists m body,
                   In m ms
                   /\ new = body ++ [EvInsert (Migration.ID m) (Migration.Description m)
                                              batch])
       end.
Proof.
  revert tx attempted u ok. induction ms as [|m ms IH]; intros tx attempted u ok H R.
  - simpl in H, R. injection H as <- <-. exists [], 0%nat.
    rewrite app_nil_r. repeat split; auto.
  - simpl in H. unfold executeMigrationUp in H. rewrite execUpQueries_spec in H.
    change (forwardStatements (m :: ms))
      with (forwardKept (Migration.Up m) ++ forwardStatements ms) in R.
    rewrite runStatements_app in R.
    destruct (runStatements U execStmt (forwardKept (Migration.Up m)) (data (work tx)))
      as [[a1 u1] ok1].
    destruct ok1.
    + destruct (runStatements U execStmt (forwardStatements ms) u1)
        as [[a2 u2] ok2] eqn:R2.
      injection R as <- <- <-.
      unfold insertMigrationRecord, logged in H. cbn [work ledger data calls] in H.
      destruct (insertFails env (Migration.ID m)
                || hasID (Migration.ID m) (ledger (work tx))).
      * injection H as <- <-. cbn [calls].
        exists (map EvExec a1
                ++ [EvInsert (Migration.ID m) (Migration.Description m) batch]),
               (length a1 + 0)%nat.
        rewrite <- app_assoc. split; [reflexivity|]. split.
        { apply Forall_app. split; [apply statements_exec|repeat constructor]. }
        split.
        { rewrite executed_app, executed_exec, firstn_length_app. reflexivity. }
        right. split; [reflexivity|]. exists m, (map EvExec a1). split; [now left|reflexivity].
      * apply IH with (attempted := a2) (u := u2) (ok := ok2) in H; [|exact R2].
        destruct H as (new & n & C & F & X & K). cbn [calls] in C.
        exists (map EvExec a1
                ++ EvInsert (Migration.ID m) (Migration.Description m) batch :: new),
               (length a1 + n)%nat.
        split; [rewrite C, <- !app_assoc; reflexivity|]. split.
        { apply Forall_app. split; [apply statements_exec|constructor; auto]. }
        split.
        { rewrite executed_app, executed_exec, firstn_length_app. simpl.
          fold (executed new). now rewrite X. }
        destruct e as [e|]; [|exact I]. destruct K as [(-> & -> & K)|(-> & m' & body & Hin & ->)].
        { left. repeat split. rewrite executed_app, executed_exec. simpl.
          fold (executed new). now rewrite K. }
        { right. split; [reflexivity|].
          exists m', (map EvExec a1
                      ++ EvInsert (Migration.ID m) (Migration.Description m) batch :: body).
          split; [now right|]. rewrite <- app_assoc. reflexivity. }
    + injection R as <- <- <-. injection H as <- <-. cbn [calls].
      exists (map EvExec a1), (length a1 + 0)%nat.
      split; [reflexivity|]. split; [apply statements_exec|]. split.
      { now rewrite executed_exec, Nat.add_0_r, firstn_all. }
      left. repeat split. apply executed_exec.
Qed.

(** The loop of [executeRollback], whatever its outcome. *)
Lemma execRollbackList_cases env rows migrationMap (tx tx' : Tx U) e :
  execRollbackList U execStmt env rows migrationMap tx = (e, tx') ->
  exists new,
    calls tx' = calls tx ++ new
    /\ Forall (fun ev => isStatement ev = true) new
    /\ match e with
       | None => True
       | Some e => e = ErrJoin ErrMigrationFailed ErrDriver
       end.
Proof.
  revert tx. induction rows as [|row rows IH]; intros tx H.
  - simpl in H. injection H as <- <-. exists []. rewrite app_nil_r. auto.
  - simpl in H. unfold rollbackSingleMigration in H.
    rewrite rollback_statements_spec in H.
    destruct (runStatements U execStmt (reverseStatements migrationMap row)
                (data (work tx))) as [[a1 u1] ok1].
    destruct ok1.
    + unfold deleteMigrationRecord, logged in H. cbn [work ledger data calls] in H.
      destruct (deleteFails env (MigrationStatus.ID row)).
      * injection H as <- <-. cbn [calls].
        exists (map EvExec a1 ++ [EvDelete (MigrationStatus.ID row)]).
        rewrite <- app_assoc. split; [reflexivity|]. split; [|reflexivity].
        apply Forall_app. split; [apply statements_exec|repeat constructor].
      * apply IH in H. destruct H as (new & C & F & K). cbn [calls] in C.
        exists (map EvExec a1 ++ EvDelete (MigrationStatus.ID row) :: new).
        split; [rewrite C, <- !app_assoc; reflexivity|]. split; [|exact K].
        apply Forall_app. split; [apply statements_exec|constructor; auto].
    + injection H as <- <-. cbn [calls]. exists (map EvExec a1).
      split; [reflexivity|]. split; [apply statements_exec|reflexivity].
Qed.

End TransactionFacts.

Section TransactionTheorems.
Import GoStrings Migrator Observed.
Context {U : Type} (execStmt : string -> U -> option U).

(** [executeMigrationBatch] once the transaction is open. *)
Lemma executeMigrationBatch_open env ms batch (db : DB U) :
  beginFails env = false ->
  exists e tx' attempted u ok new n,
    runStatements U execStmt (forwardStatements ms) (data db) = (attempted, u, ok)
    /\ calls tx' = EvBegin :: new
    /\ Forall (fun ev => isStatement ev = true) new
    /\ executed new = firstn n attempted
    /\ match e with
       | None => ok = true
       | Some e =>
           (e = ErrJoin ErrMigrationFailed (ErrJoin ErrFailedToExecuteQuery ErrDriver)
            /\ ok = false /\ executed new = attempted)
           \/ (e = ErrJoin ErrMigrationFailed ErrDriver
               /\ exists m body,
                   In m ms
                   /\ new = body ++ [EvInsert (Migration.ID m) (Migration.Description m)
                                              batch])
       end
    /\ executeMigrationBatch U execStmt env ms batch db
       = match e with
         | Some e => (Some e, db, calls tx' ++ [EvRollback])
         | None =>
             if commitFails env
             then (Some ErrDriver, db, calls tx' ++ [EvCommit; EvRollback])
             else (None, work tx', calls tx' ++ [EvCommit])
         end.
Proof.
  intros Hb. unfold executeMigrationBatch, BeginTx. rewrite Hb.
  destruct (execBatch U execStmt env ms batch {| work := db; calls := [EvBegin] |})
    as [e tx'] eqn:E.
  destruct (runStatements U execStmt (forwardStatements ms) (data db))
    as [[attempted u] ok] eqn:R.
  destruct (execBatch_cases execStmt env ms batch _ _ _ _ _ _ E R)
    as (new & n & C & F & X & K).
  exists e, tx', attempted, u, ok, new, n.
  split; [reflexivity|]. split; [exact C|]. split; [exact F|]. split; [exact X|].
  split; [|destruct e; reflexivity].
  destruct e as [e|]; [exact K|].
  apply execBatch_ok in E as (_ & _ & R' & _). cbn [work data] in R'.
  unfold forwardStatements in R. rewrite R' in R. now injection R.
Qed.

Lemma executed_untransacted evs :
  Forall (fun ev => inTransaction ev = false) evs -> executed evs = [].
Proof.
  induction 1 as [|ev evs H _ IH]; [reflexivity|].
  destruct ev; try discriminate H; simpl; auto.
Qed.

Lemma pending_nonempty r (db : DB U) before q after :
  forwardStatements (pending r db) = before ++ q :: after -> pending r db <> [].
Proof.
  intros E P. rewrite P in E. simpl in E. now apply app_cons_not_nil in E.
Qed.

(** X14: [Up] stops at the first forward statement the store refuses: the
    statements sent are those before it and, at most, the refused one;
    nothing after it is sent, [Up] fails and the store is as before. *)
Theorem Up_stops_at_first_refusal (env : Faults) (r : Migrator.t) (db : DB U)
    (before after : list string) (q : string) (u : U) :
  forwardStatements (pending r db) = before ++ q :: after ->
  runStatements U execStmt before (data db) = (before, u, true) ->
  execStmt q u = None ->
  err (Up U execStmt env r db) <> None
  /\ store (Up U execStmt env r db) = db
  /\ exists n, executed (trace (Up U execStmt env r db)) = firstn n (before ++ [q]).
Proof.
  intros E Rb Rq.
  assert (runStatements U execStmt (forwardStatements (pending r db)) (data db)
          = (before ++ [q], u, false)) as R.
  { rewrite E, runStatements_app, Rb. simpl. now rewrite Rq. }
  assert (err (Up U execStmt env r db) <> None
          /\ exists n, executed (trace (Up U execStmt env r db))
                       = firstn n (before ++ [q])) as [F X].
  { destruct (readable_dec env) as [Hr|Hr].
    - rewrite (Up_readable execStmt env r db Hr).
      pose proof (pending_nonempty r db _ _ _ E) as Hne.
      destruct (pending r db) as [|m ms] eqn:P; [contradiction|]. rewrite <- P in *.
      destruct (beginFails env) eqn:Hb.
      + unfold executeMigrationBatch, BeginTx. rewrite Hb. cbn [err trace].
        split; [discriminate|]. exists 0%nat. reflexivity.
      + destruct (executeMigrationBatch_open env (pending r db) (nextBatch db) db Hb)
          as (e & tx' & attempted & u' & ok & new & n & R' & C & _ & X & K & ->).
        rewrite R in R'. injection R' as <- <- <-.
        destruct e as [e|]; [|discriminate K]. cbn [err trace].
        split; [discriminate|]. exists n.
        rewrite C, !executed_app.
        change (executed readEvents) with (@nil string).
        change (executed (EvBegin :: new)) with (executed new).
        change (executed [EvRollback]) with (@nil string).
        rewrite X. simpl. now rewrite app_nil_r.
    - destruct (Up_unreadable execStmt env r db Hr) as (e & evs & -> & F). cbn [err trace].
      split; [discriminate|]. exists 0%nat. now apply executed_untransacted. }
  split; [exact F|]. split; [now apply Up_failed|exact X].
Qed.

(** X15: Once [Up] has opened a transaction it ends it: with a commit when every
    call went through, with a rollback otherwise, and between the two it
    only sends statements and Ledger INSERTs. *)
Theorem Up_transaction_is_closed (env : Faults) (r : Migrator.t) (db : DB U) :
  readable env -> beginFails env = false -> pending r db <> [] ->
  let res := Up U execStmt env r db in
  exists body,
    Forall (fun ev => isStatement ev = true) body
    /\ deletedIDs body = []
    /\ ((err res = None /\ trace res = readEvents ++ EvBegin :: body ++ [EvCommit])
        \/ (err res <> None
            /\ trace res = readEvents ++ EvBegin :: body ++ [EvRollback])
        \/ (err res = Some ErrDriver /\ commitFails env = true
            /\ trace res = readEvents ++ EvBegin :: body ++ [EvCommit; EvRollback])).
Proof.
  intros Hr Hb Hne res. subst res.
  pose proof (Up_deletes_nothing execStmt env r db) as D.
  rewrite (Up_readable execStmt env r db Hr) in D |- *.
  destruct (pending r db) as [|m ms] eqn:P; [contradiction|]. rewrite <- P in *.
  destruct (executeMigrationBatch_open env (pending r db) (nextBatch db) db Hb)
    as (e & tx' & attempted & u' & ok & new & n & _ & C & F & _ & _ & E).
  rewrite E in D |- *. exists new. split; [exact F|].
  rewrite C in D |- *.
  assert (deletedIDs new = []) as Dn.
  { destruct e as [e|]; [|destruct (commitFails env)]; cbn [trace] in D;
      rewrite deletedIDs_app in D; simpl in D; rewrite deletedIDs_app in D;
      now apply app_eq_nil in D. }
  split; [exact Dn|].
  destruct e as [e|]; [|destruct (commitFails env)]; cbn [err trace].
  - right. left. split; [discriminate|reflexivity].
  - right. right. auto.
  - left. auto.
Qed.

(** X16: The errors [Up] returns, and what each of them tells. *)
Theorem Up_error_kinds (env : Faults) (r : Migrator.t) (db : DB U) (e : error) :
  err (Up U execStmt env r db) = Some e ->
  (~ readable env /\ exists e', e = ErrJoin ErrFailedToGetAppliedMigrations e')
  \/ (readable env /\ beginFails env = true
      /\ e = ErrJoin ErrFailedToBeginTransaction ErrDriver)
  \/ (e = ErrJoin ErrMigrationFailed (ErrJoin ErrFailedToExecuteQuery ErrDriver)
      /\ (runStatements U execStmt (forwardStatements (pending r db)) (data db)).2 = false)
  \/ (e = ErrJoin ErrMigrationFailed ErrDriver
      /\ exists m, In m (pending r db)
                   /\ In (EvInsert (Migration.ID m) (Migration.Description m) (nextBatch db))
                         (trace (Up U execStmt env r db)))
  \/ (e = ErrDriver /\ commitFails env = true).
Proof.
  destruct (readable_dec env) as [Hr|Hr].
  - rewrite (Up_readable execStmt env r db Hr).
    destruct (pending r db) as [|m ms] eqn:P; [discriminate|]. rewrite <- P in *.
    destruct (beginFails env) eqn:Hb.
    + unfold executeMigrationBatch, BeginTx. rewrite Hb. cbn [err].
      intros [= <-]. right. left. auto.
    + destruct (executeMigrationBatch_open env (pending r db) (nextBatch db) db Hb)
        as (e0 & tx' & attempted & u' & ok & new & n & R & C & _ & _ & K & ->).
      destruct e0 as [e0|]; [|destruct (commitFails env) eqn:Hc]; cbn [err trace];
        intros [= <-].
      * destruct K as [(-> & -> & _)|(-> & m' & body & Hin & ->)].
        { right. right. left. rewrite R. auto. }
        { right. right. right. left. split; [reflexivity|]. exists m'.
          split; [exact Hin|]. rewrite C. apply in_or_app. right.
          apply in_or_app. left. right. apply in_or_app. right. now left. }
      * right. right. right. right. auto.
  - destruct (Up_unreadable execStmt env r db Hr) as (e' & evs & -> & _). cbn [err].
    intros [= <-]. left. eauto.
Qed.

(** [executeRollback] once the transaction is open. *)
Lemma executeRollback_open env rows migrationMap (db : DB U) :
  beginFails env = false ->
  exists e tx' new,
    calls tx' = EvBegin :: new
    /\ Forall (fun ev => isStatement ev = true) new
    /\ match e with
       | None => True
       | Some e => e = ErrJoin ErrMigrationFailed ErrDriver
       end
    /\ executeRollback U execStmt env rows migrationMap db
       = match e with
         | Some e => (Some e, db, calls tx' ++ [EvRollback])
         | None =>
             if commitFails env
             then (Some ErrDriver, db, calls tx' ++ [EvCommit; EvRollback])
             else (None, work tx', calls tx' ++ [EvCommit])
         end.
Proof.
  intros Hb. unfold executeRollback, BeginTx. rewrite Hb.
  destruct (execRollbackList U execStmt env rows migrationMap
              {| work := db; calls := [EvBegin] |}) as [e tx'] eqn:E.
  destruct (execRollbackList_cases execStmt env rows migrationMap _ _ _ E)
    as (new & C & F & K).
  exists e, tx', new. split; [exact C|]. split; [exact F|]. split; [exact K|].
  destruct e; reflexivity.
Qed.

(** X17: Once [Down] has opened a transaction it ends it, with a commit when
    every call went through and with a rollback otherwise; between the two
    it only sends statements and Ledger DELETEs. *)
Theorem Down_transaction_is_closed (env : Faults) (steps : Z) (r : Migrator.t)
    (db : DB U) :
  readable env -> beginFails env = false -> ledger db <> [] ->
  let res := Down U execStmt env steps r db in
  exists body,
    Forall (fun ev => isStatement ev = true) body
    /\ insertedIDs body = []
    /\ ((err res = None /\ trace res = readEvents ++ EvBegin :: body ++ [EvCommit])
        \/ (err res <> None
            /\ trace res = readEvents ++ EvBegin :: body ++ [EvRollback])
        \/ (err res = Some ErrDriver /\ commitFails env = true
            /\ trace res = readEvents ++ EvBegin :: body ++ [EvCommit; EvRollback])).
Proof.
  intros Hr Hb Hne res. subst res.
  pose proof (Down_inserts_nothing execStmt env steps r db) as D.
  rewrite (Down_readable execStmt env steps r db Hr) in D |- *.
  destruct (ledger db) as [|row rows] eqn:P; [contradiction|].
  destruct (executeRollback_open env (selected steps db)
              (buildMigrationMap (migrations r)) db Hb)
    as (e & tx' & new & C & F & _ & E).
  rewrite E in D |- *. exists new. split; [exact F|].
  rewrite C in D |- *.
  assert (insertedIDs new = []) as Dn.
  { destruct e as [e|]; [|destruct (commitFails env)]; cbn [trace] in D;
      rewrite insertedIDs_app in D; simpl in D; rewrite insertedIDs_app in D;
      now apply app_eq_nil in D. }
  split; [exact Dn|].
  destruct e as [e|]; [|destruct (commitFails env)]; cbn [err trace].
  - right. left. split; [discriminate|reflexivity].
  - right. right. auto.
  - left. auto.
Qed.

(** X18: The errors [Down] returns, and what each of them tells. *)
Theorem Down_error_kinds (env : Faults) (steps : Z) (r : Migrator.t) (db : DB U)
    (e : error) :
  err (Down U execStmt env steps r db) = Some e ->
  (~ readable env /\ exists e', e = ErrJoin ErrFailedToGetAppliedMigrations e')
  \/ (readable env /\ ledger db = [] /\ e = ErrNoMigrationsToRollback)
  \/ (readable env /\ ledger db <> [] /\ beginFails env = true
      /\ e = ErrJoin ErrFailedToBeginTransaction ErrDriver)
  \/ (ledger db <> [] /\ e = ErrJoin ErrMigrationFailed ErrDriver)
  \/ (ledger db <> [] /\ e = ErrDriver /\ commitFails env = true).
Proof.
  destruct (readable_dec env) as [Hr|Hr].
  - rewrite (Down_readable execStmt env steps r db Hr).
    destruct (ledger db) as [|row rows] eqn:P.
    { cbn [err]. intros [= <-]. right. left. auto. }
    assert (row :: rows <> []) as Hne by discriminate.
    destruct (beginFails env) eqn:Hb.
    + unfold executeRollback, BeginTx. rewrite Hb. cbn [err].
      intros [= <-]. right. right. left. auto.
    + destruct (executeRollback_open env (selected steps db)
                  (buildMigrationMap (migrations r)) db Hb)
        as (e0 & tx' & new & _ & _ & K & ->).
      destruct e0 as [e0|]; [|destruct (commitFails env) eqn:Hc]; cbn [err];
        intros [= <-].
      * subst e0. right. right. right. left. auto.
      * right. right. right. right. auto.
  - destruct (Down_unreadable execStmt env steps r db Hr) as (e' & evs & -> & _).
    cbn [err]. intros [= <-]. left. eauto.
Qed.

End TransactionTheorems.

(** ** The Ledger across calls *)

Section LedgerFacts.
Import GoStrings Migrator Observed.
Context {U : Type} (execStmt : string -> U -> option U).

Lemma Up_self env r (db : DB U) :
  readable env ->
  migrations (self (Up U execStmt env r db)) = GoSort.Slice byID (migrations r).
Proof.
  intros Hr. rewrite (Up_readable execStmt env r db Hr).
  destruct (pending r db); [reflexivity|].
  destruct (executeMigrationBatch U execStmt env _ _ db) as [[e db'] evs]. reflexivity.
Qed.

Lemma filter_all {A} (f : A -> bool) l :
  (forall x, In x l -> f x = true) -> List.filter f l = l.
Proof.
  induction l as [|x l IH]; simpl; intros H; [reflexivity|].
  rewrite (H x) by now left. f_equal. apply IH. intros y Hy. apply H. now right.
Qed.

Lemma NoDup_app_disjoint {A} (l1 l2 : list A) x :
  List.NoDup (l1 ++ l2) -> In x l1 -> In x l2 -> False.
Proof.
  induction l1 as [|a l1 IH]; simpl; intros ND H1 H2; [contradiction|].
  apply List.NoDup_cons_iff in ND as [Na ND].
  destruct H1 as [->|H1]; [|now apply IH].
  apply Na, in_or_app. now right.
Qed.

Lemma NoDup_app_intro {A} (l1 l2 : list A) :
  List.NoDup l1 -> List.NoDup l2 -> (forall x, In x l1 -> In x l2 -> False) ->
  List.NoDup (l1 ++ l2).
Proof.
  induction l1 as [|a l1 IH]; simpl; intros N1 N2 D; [exact N2|].
  apply List.NoDup_cons_iff in N1 as [Na N1]. apply List.NoDup_cons_iff. split.
  - intros H. apply in_app_or in H as [H|H]; [now apply Na|]. apply (D a); auto.
  - apply IH; auto. intros x H1 H2. apply (D x); auto.
Qed.

Lemma kept_withoutIDs ids (row : MigrationStatus.t) :
  negb (existsb (String.eqb (MigrationStatus.ID row)) ids) = false
  <-> In (MigrationStatus.ID row) ids.
Proof.
  rewrite negb_false_iff, existsb_exists. split.
  - intros (id & Hin & E). apply String.eqb_eq in E. now rewrite E.
  - intros Hin. exists (MigrationStatus.ID row). split; [exact Hin|apply String.eqb_refl].
Qed.

Lemma hasID_withoutIDs id ids rows :
  In id ids -> hasID id (withoutIDs ids rows) = false.
Proof.
  intros Hin. destruct (hasID id (withoutIDs ids rows)) eqn:E; [|reflexivity].
  apply hasID_In, in_map_iff in E as (row & <- & Hrow).
  apply List.filter_In in Hrow as [_ K].
  apply kept_withoutIDs in Hin. rewrite Hin in K. discriminate.
Qed.

(** What [Down] selects when [steps] is outside [1 .. n]. *)
Lemma selected_all steps (db : DB U) :
  steps <= 0 \/ steps > Z.of_nat (length (ledger db)) ->
  selected steps db = GoSort.Slice byBatchIDDesc (appliedRows db).
Proof.
  intros Hs. unfold selected.
  pose proof (buildRollbackList_spec (appliedRows db) steps) as S. cbv zeta in S.
  destruct S as [S _]. rewrite S.
  assert (length (appliedRows db) = length (ledger db)) as L
      by (unfold appliedRows; apply Slice_length).
  rewrite L.
  replace ((steps <=? 0) || (steps >? Z.of_nat (length (ledger db)))) with true.
  - rewrite <- L, <- (Slice_length byBatchIDDesc). apply firstn_all.
  - symmetry. apply orb_true_iff. destruct Hs as [Hs|Hs]; [left|right]; lia.
Qed.

Lemma sorted_rows_Permutation (db : DB U) :
  Permutation (ledger db) (GoSort.Slice byBatchIDDesc (appliedRows db)).
Proof.
  symmetry. rewrite Slice_Permutation. unfold appliedRows. apply Slice_Permutation.
Qed.

(** X19: A [Down] with [steps] at most 0, or above the number of rows, that
    returns nil has removed every row of the Ledger. *)
Theorem Down_of_everything_empties_ledger (env : Faults) (steps : Z) (r : Migrator.t)
    (db : DB U) :
  steps <= 0 \/ steps > Z.of_nat (length (ledger db)) ->
  err (Down U execStmt env steps r db) = None ->
  ledger (store (Down U execStmt env steps r db)) = [].
Proof.
  intros Hs H. apply Down_ok in H as (_ & _ & _ & L & _). rewrite L.
  rewrite (selected_all steps db Hs). unfold withoutIDs. apply filter_none.
  intros row Hin. apply kept_withoutIDs, in_map.
  apply (Permutation_in _ (sorted_rows_Permutation db)), Hin.
Qed.

(** X20: After a [Down] that returned nil, a registered migration whose row was
    rolled back is again among the candidates the next [Up] applies. *)
Theorem rolled_back_is_pending_again (env : Faults) (steps : Z) (r : Migrator.t)
    (db : DB U) (m : Migration.t) :
  err (Down U execStmt env steps r db) = None ->
  In m (migrations r) ->
  In (Migration.ID m) (map MigrationStatus.ID (selected steps db)) ->
  In m (pending (self (Down U execStmt env steps r db))
                (store (Down U execStmt env steps r db))).
Proof.
  intros H Hm Hsel. rewrite (Down_self execStmt env steps r db).
  apply Down_ok in H as (_ & _ & _ & L & _).
  apply In_pending. split; [exact Hm|]. rewrite L. now apply hasID_withoutIDs.
Qed.

(** X21: The identifiers of the Ledger stay distinct: if they are before a call
    of [Up] or [Down], they are after it, whatever the call returns. *)
Theorem ledger_identifiers_stay_unique (env : Faults) (steps : Z) (r : Migrator.t)
    (db : DB U) :
  List.NoDup (map MigrationStatus.ID (ledger db)) ->
  List.NoDup (map MigrationStatus.ID (ledger (store (Up U execStmt env r db))))
  /\ List.NoDup (map MigrationStatus.ID
                   (ledger (store (Down U execStmt env steps r db)))).
Proof.
  intros ND. split.
  - destruct (err (Up U execStmt env r db)) as [e|] eqn:E.
    + rewrite Up_failed; [exact ND|]. rewrite E. discriminate.
    + apply Up_ok in E as (_ & L & _ & _ & NP). rewrite L, map_app, map_map.
      apply NoDup_app_intro; [exact ND|exact NP|].
      intros id H1 H2. apply in_map_iff in H2 as (m & <- & Hm).
      apply In_pending in Hm as [_ Hm]. apply hasID_In in H1.
      simpl in H1. rewrite H1 in Hm. discriminate.
  - destruct (err (Down U execStmt env steps r db)) as [e|] eqn:E.
    + rewrite Down_failed; [exact ND|]. rewrite E. discriminate.
    + apply Down_ok in E as (_ & _ & _ & L & _). rewrite L.
      unfold withoutIDs. now apply NoDup_map_filter.
Qed.

(** X22: With distinct identifiers in the Ledger, a [Down] that returned nil has
    removed the selected rows and no other. *)
Theorem Down_removes_selected_rows (env : Faults) (steps : Z) (r : Migrator.t)
    (db : DB U) :
  List.NoDup (map MigrationStatus.ID (ledger db)) ->
  err (Down U execStmt env steps r db) = None ->
  Permutation (ledger db)
    (selected steps db ++ ledger (store (Down U execStmt env steps r db))).
Proof.
  intros ND H. apply Down_ok in H as (_ & _ & _ & L & _). rewrite L.
  set (sorted := GoSort.Slice byBatchIDDesc (appliedRows db)).
  assert (exists k, selected steps db = firstn k sorted) as [k Hk].
  { unfold selected, buildRollbackList. eexists. reflexivity. }
  pose proof (sorted_rows_Permutation db) as P. fold sorted in P.
  assert (List.NoDup (map MigrationStatus.ID (firstn k sorted ++ skipn k sorted))) as N.
  { rewrite firstn_skipn.
    apply (Permutation_NoDup (l := map MigrationStatus.ID (ledger db))); [|exact ND].
    now apply Permutation_map. }
  rewrite map_app in N.
  assert (Permutation (withoutIDs (map MigrationStatus.ID (selected steps db)) (ledger db))
            (skipn k sorted)) as Q.
  { unfold withoutIDs. rewrite (filter_Permutation' _ _ _ P).
    rewrite <- (firstn_skipn k sorted) at 1. rewrite List.filter_app, Hk.
    rewrite filter_none, filter_all; [reflexivity| |].
    - intros row Hin. apply negb_true_iff.
      destruct (existsb (String.eqb (MigrationStatus.ID row))
                  (map MigrationStatus.ID (firstn k sorted))) eqn:X; [|reflexivity].
      exfalso. apply (NoDup_app_disjoint _ _ (MigrationStatus.ID row) N).
      + apply kept_withoutIDs. now rewrite X.
      + now apply in_map.
    - intros row Hin. apply kept_withoutIDs. now apply in_map. }
  rewrite Q, Hk, firstn_skipn. exact P.
Qed.

(** X23: Batch numbers are consecutive: an [Up] that applied something leaves a
    Ledger whose next batch number is one more. *)
Theorem next_batch_advances (env : Faults) (r : Migrator.t) (db : DB U) :
  (forall row, In row (ledger db) ->
               0 <= MigrationStatus.Batch row < GoInt.maxInt - 1) ->
  pending r db <> [] ->
  err (Up U execStmt env r db) = None ->
  nextBatch (store (Up U execStmt env r db)) = nextBatch db + 1.
Proof.
  intros Hrange Hne H. apply Up_ok in H as (_ & L & _).
  assert (forall row, In row (ledger db) ->
                      0 <= MigrationStatus.Batch row < GoInt.maxInt) as Hr1
      by (intros row Hin; specialize (Hrange row Hin); lia).
  destruct (nextBatch_spec db Hr1) as (Hle & Hempty & Hsome).
  assert (1 <= nextBatch db < GoInt.maxInt) as Hnb.
  { destruct (ledger db) as [|row0 rows] eqn:E.
    - rewrite Hempty by reflexivity. unfold GoInt.maxInt. lia.
    - destruct Hsome as (row & Hin & ->); [discriminate|].
      specialize (Hrange row Hin). lia. }
  set (db' := store (Up U execStmt env r db)) in *.
  assert (forall row, In row (ledger db') ->
                      MigrationStatus.Batch row = nextBatch db
                      \/ (In row (ledger db) /\ MigrationStatus.Batch row <= nextBatch db - 1))
    as Hrows.
  { intros row Hin. rewrite L in Hin. apply in_app_or in Hin as [Hin|Hin].
    - right. auto.
    - left. apply in_map_iff in Hin as (m & <- & _). reflexivity. }
  assert (forall row, In row (ledger db') ->
                      0 <= MigrationStatus.Batch row < GoInt.maxInt) as Hr2.
  { intros row Hin. destruct (Hrows row Hin) as [->|[Hold _]]; [lia|auto]. }
  destruct (nextBatch_spec db' Hr2) as (Hle' & _ & Hsome').
  destruct (pending r db) as [|m ms] eqn:P; [contradiction|].
  assert (In (appliedRow env (nextBatch db) m) (ledger db')) as Hnew.
  { rewrite L. apply in_or_app. right. now left. }
  destruct Hsome' as (row & Hin & E).
  { intros E. rewrite E in Hnew. contradiction. }
  specialize (Hle' _ Hnew). simpl in Hle'.
  destruct (Hrows row Hin) as [Hb|[_ Hb]]; lia.
Qed.

(** X24: The next batch number is at least 1 and above every batch number read
    from the Ledger, as long as none of them is the largest [int]; it is 1
    when none of them is positive. *)
Theorem getNextBatchNumber_exceeds (applied : list MigrationStatus.t) :
  (forall row, In row applied -> MigrationStatus.Batch row < GoInt.maxInt) ->
  1 <= getNextBatchNumber applied
  /\ (forall row, In row applied -> MigrationStatus.Batch row < getNextBatchNumber applied)
  /\ ((forall row, In row applied -> MigrationStatus.Batch row <= 0) ->
      getNextBatchNumber applied = 1).
Proof.
  intros Hrange. unfold getNextBatchNumber.
  pose proof (getNextBatchNumber_from applied 0) as G. cbv zeta in G.
  set (maxBatch := fold_left _ applied 0) in *.
  destruct G as (G0 & Gall & Gmax).
  assert (maxBatch < GoInt.maxInt) as Hlt.
  { destruct Gmax as [->|(row & Hin & <-)]; [unfold GoInt.maxInt; lia|auto]. }
  unfold GoInt.add. rewrite wrap_small by (unfold GoInt.maxInt in *; lia).
  split; [lia|]. split.
  - intros row Hin. specialize (Gall row Hin). lia.
  - intros Hnp. destruct Gmax as [->|(row & Hin & E)]; [reflexivity|].
    specialize (Hnp row Hin). lia.
Qed.

(** X25: When a row carries the largest [int] as its batch number, the sum
    wraps around and the next batch number is the smallest [int]. *)
Theorem getNextBatchNumber_overflow (applied : list MigrationStatus.t)
    (row : MigrationStatus.t) :
  In row applied -> MigrationStatus.Batch row = GoInt.maxInt ->
  (forall row', In row' applied -> MigrationStatus.Batch row' <= GoInt.maxInt) ->
  getNextBatchNumber applied = - 2 ^ 63.
Proof.
  intros Hin Hmax Hrange. unfold getNextBatchNumber.
  pose proof (getNextBatchNumber_from applied 0) as G. cbv zeta in G.
  set (maxBatch := fold_left _ applied 0) in *.
  destruct G as (G0 & Gall & Gmax).
  assert (maxBatch = GoInt.maxInt) as ->.
  { specialize (Gall row Hin). rewrite Hmax in Gall.
    destruct Gmax as [E|(row' & Hin' & <-)].
    - rewrite E in Gall. unfold GoInt.maxInt in Gall. lia.
    - specialize (Hrange row' Hin'). lia. }
  reflexivity.
Qed.

(** X26: After an [Up] that returned nil, registering further migrations and
    calling [Up] again applies only newly registered ones, none of which
    carries an identifier registered before. *)
Theorem later_Up_applies_only_new (env : Faults) (r : Migrator.t) (db : DB U)
    (more : list Migration.t) (m : Migration.t) :
  err (Up U execStmt env r db) = None ->
  In m (pending (Register more (self (Up U execStmt env r db)))
                (store (Up U execStmt env r db))) ->
  In m more /\ ~ In (Migration.ID m) (map Migration.ID (migrations r)).
Proof.
  intros H Hin. apply In_pending in Hin as [Hreg Hnot].
  assert (~ In (Migration.ID m) (map Migration.ID (migrations r))) as Hnew.
  { intros Hid. apply in_map_iff in Hid as (m0 & E & Hm0).
    rewrite <- E, (Up_ok_all_applied execStmt env r db m0 H Hm0) in Hnot.
    discriminate. }
  split; [|exact Hnew]. simpl in Hreg. apply in_app_or in Hreg as [Hold|Hmore];
    [|exact Hmore].
  exfalso. apply Hnew, in_map.
  rewrite Up_self in Hold by (apply Up_ok in H; apply H).
  apply (Permutation_in _ (Slice_Permutation byID (migrations r))), Hold.
Qed.

End LedgerFacts.

Section TransactionRuns.
Import GoStrings Migrator Observed Example.

Lemma Up_stops_at_first_refusal_witness :
  err (Up _ run healthy (Register [bad] registered) empty) <> None
  /\ store (Up _ run healthy (Register [bad] registered) empty) = empty.
Proof.
  destruct (Up_stops_at_first_refusal run healthy (Register [bad] registered) empty
              ["CREATE TABLE t(id INT)"; "ALTER TABLE t ADD COLUMN name TEXT"] []
              "FAIL"
              ["CREATE TABLE t(id INT)"; "ALTER TABLE t ADD COLUMN name TEXT"])
    as (E & S & _); [vm_compute; reflexivity ..|].
  split; [exact E|exact S].
Defined.

Lemma Up_transaction_is_closed_witness :
  exists body,
    Forall (fun ev => isStatement ev = true) body /\ deletedIDs body = [].
Proof.
  destruct (Up_transaction_is_closed run healthy registered empty) as (body & F & D & _).
  - repeat split.
  - reflexivity.
  - vm_compute. discriminate.
  - exists body. split; [exact F|exact D].
Defined.

Lemma Up_error_kinds_witness :
  (runStatements _ run (forwardStatements (pending (Register [bad] registered) empty))
     (data empty)).2 = false.
Proof.
  destruct (Up_error_kinds run healthy (Register [bad] registered) empty
              (ErrJoin ErrMigrationFailed (ErrJoin ErrFailedToExecuteQuery ErrDriver)))
    as [[H _]|[(_ & H & _)|[[_ H]|[[H _]|[H _]]]]].
  - vm_compute. reflexivity.
  - exfalso. apply H. repeat split.
  - discriminate H.
  - exact H.
  - discriminate H.
  - discriminate H.
Defined.

Lemma Down_transaction_is_closed_witness :
  exists body,
    Forall (fun ev => isStatement ev = true) body /\ insertedIDs body = [].
Proof.
  destruct (Down_transaction_is_closed run healthy 1 registered applied)
    as (body & F & D & _).
  - repeat split.
  - reflexivity.
  - simpl. discriminate.
  - exists body. split; [exact F|exact D].
Defined.

Lemma Down_error_kinds_witness : readable healthy /\ ledger empty = [].
Proof.
  destruct (Down_error_kinds run healthy 1 registered empty ErrNoMigrationsToRollback)
    as [[H _]|[(Hr & H & _)|[(_ & H & _)|[[H _]|[H _]]]]].
  - vm_compute. reflexivity.
  - exfalso. apply H. repeat split.
  - split; [exact Hr|exact H].
  - exfalso. now apply H.
  - exfalso. now apply H.
  - exfalso. now apply H.
Defined.

End TransactionRuns.

Section LedgerRuns.
Import GoStrings Migrator Observed Example.

Lemma Down_of_everything_empties_ledger_witness :
  ledger (store (Down _ run healthy 0 registered applied)) = [].
Proof.
  apply (Down_of_everything_empties_ledger run healthy 0 registered applied).
  - left. lia.
  - vm_compute. reflexivity.
Defined.

Lemma rolled_back_is_pending_again_witness :
  In m2 (pending (self (Down _ run healthy 1 registered applied))
                 (store (Down _ run healthy 1 registered applied))).
Proof.
  apply (rolled_back_is_pending_again run healthy 1 registered applied m2).
  - vm_compute. reflexivity.
  - simpl. auto.
  - vm_compute. left. reflexivity.
Defined.

Lemma ledger_identifiers_stay_unique_witness :
  List.NoDup (map MigrationStatus.ID
                (ledger (store (Up _ run healthy (Register [m3] registered) applied))))
  /\ List.NoDup (map MigrationStatus.ID
                   (ledger (store (Down _ run healthy 1 registered applied)))).
Proof.
  apply (ledger_identifiers_stay_unique run healthy 1 (Register [m3] registered) applied).
  simpl. repeat constructor; simpl; intuition discriminate.
Defined.

Lemma Down_removes_selected_rows_witness :
  Permutation (ledger applied)
    (selected 1 applied ++ ledger (store (Down _ run healthy 1 registered applied))).
Proof.
  apply (Down_removes_selected_rows run healthy 1 registered applied).
  - simpl. repeat constructor; simpl; intuition discriminate.
  - vm_compute. reflexivity.
Defined.

Lemma next_batch_advances_witness :
  nextBatch (store (Up _ run healthy (Register [m3] registered) applied))
  = nextBatch applied + 1.
Proof.
  apply (next_batch_advances run healthy (Register [m3] registered) applied).
  - simpl. intros row [<-|[<-|[]]]; simpl; unfold GoInt.maxInt; lia.
  - vm_compute. discriminate.
  - vm_compute. reflexivity.
Defined.

Lemma getNextBatchNumber_exceeds_witness :
  1 <= getNextBatchNumber (ledger applied)
  /\ forall row, In row (ledger applied) ->
                 MigrationStatus.Batch row < getNextBatchNumber (ledger applied).
Proof.
  destruct (getNextBatchNumber_exceeds (ledger applied)) as (H1 & H2 & _).
  - simpl. intros row [<-|[<-|[]]]; simpl; unfold GoInt.maxInt; lia.
  - split; [exact H1|exact H2].
Defined.

Lemma getNextBatchNumber_overflow_witness :
  getNextBatchNumber [MigrationStatus.Make "1" "create t" (Some 0) GoInt.maxInt]
  = - 2 ^ 63.
Proof.
  apply (getNextBatchNumber_overflow
           [MigrationStatus.Make "1" "create t" (Some 0) GoInt.maxInt]
           (MigrationStatus.Make "1" "create t" (Some 0) GoInt.maxInt)).
  - simpl. auto.
  - reflexivity.
  - simpl. intros row [<-|[]]. simpl. lia.
Defined.

Lemma later_Up_applies_only_new_witness :
  In m3 [m3] /\ ~ In (Migration.ID m3) (map Migration.ID (migrations registered)).
Proof.
  apply (later_Up_applies_only_new run healthy registered empty [m3] m3).
  - vm_compute. reflexivity.
  - vm_compute. left. reflexivity.
Defined.

End LedgerRuns.
